(** * vue-tsgo: virtual-code position maps and diagnostic back-mapping

    A shallow embedding of the code that builds the position map of a
    synthesized file ([createMappings], [generateBoundary], the line/offset
    getters) and of the code that parses the checker's report and maps each
    diagnostic back onto the original text ([parseDiagnostics],
    [isVerificationEnabled], the remap loop of [check]).

    Conventions of the embedding.
    - A JavaScript string is a sequence of UTF-16 code units; here it is a
      [string], each character standing for one code unit.  The patterns the
      code looks for (newline, space, tilde, digits, the header's literal
      pieces) are ASCII.
    - A JavaScript number that is always an integer in the code (offsets,
      lengths, line counters, diagnostic codes) is a [Z]; double-precision
      rounding of huge literals is not modelled.  Where the code can produce
      [NaN] (an array read out of range followed by arithmetic) the type is
      [number].
    - A thrown [TypeError] is the [Throw] case of [result]. *)

From Stdlib Require Import ZArith String Ascii List Lia.
From Stdlib Require Import DecimalString Sorted.
From stdpp Require Import gmap list strings.

Local Open Scope string_scope.
Local Open Scope list_scope.
Local Open Scope Z_scope.

(** ** JavaScript values and string primitives *)

Module JS.

(** Numbers that may be [NaN]. *)
Inductive number : Type :=
| NaN
| Num (z : Z).

(** The values handed to a [shouldReport] callback. *)
Inductive value : Type :=
| VUndefined
| VNumber (z : Z)
| VString (s : string).

(** [String(v)]. *)
Definition String_ (v : value) : string :=
  match v with
  | VUndefined => "undefined"
  | VNumber z => NilZero.string_of_int (Z.to_int z)
  | VString s => s
  end.

(** The outcome of a call that may throw. *)
Inductive result (A : Type) : Type :=
| Ok (a : A)
| Throw (error : string).
Arguments Ok {A} a.
Arguments Throw {A} error.

(** [s.length] *)
Definition length (s : string) : Z := Z.of_nat (String.length s).

(** [arr[i]] for an integer index: [undefined] ([None]) out of range. *)
Definition at_ {A : Type} (arr : list A) (i : Z) : option A :=
  if i <? 0 then None else arr !! Z.to_nat i.

(** [!x] for [x : number | undefined]: [undefined] and [0] are falsy. *)
Definition falsy (x : option Z) : bool :=
  match x with
  | None => true
  | Some z => z =? 0
  end.

(** White space and line terminators below U+0100, as [trim] strips them:
    TAB, LF, VT, FF, CR, SP and NBSP. *)
Definition isWhiteSpace (c : ascii) : bool :=
  let n := nat_of_ascii c in
  ((9 <=? n)%nat && (n <=? 13)%nat) || (n =? 32)%nat || (n =? 160)%nat.

Fixpoint trimStart (s : string) : string :=
  match s with
  | EmptyString => EmptyString
  | String c rest => if isWhiteSpace c then trimStart rest else s
  end.

Fixpoint trimEnd (s : string) : string :=
  match s with
  | EmptyString => EmptyString
  | String c rest =>
      match trimEnd rest with
      | EmptyString => if isWhiteSpace c then EmptyString else String c EmptyString
      | rest' => String c rest'
      end
  end.

(** [s.trim()] *)
Definition trim (s : string) : string := trimEnd (trimStart s).

(** [s.split(sep)] for a one-character separator: never empty. *)
Fixpoint split (sep : ascii) (s : string) : list string :=
  match s with
  | EmptyString => [EmptyString]
  | String c rest =>
      if Ascii.eqb c sep then EmptyString :: split sep rest
      else match split sep rest with
           | [] => [String c EmptyString]
           | first :: others => String c first :: others
           end
  end.

(** [s.split(sep, 1)[0]]: the text before the first separator. *)
Fixpoint firstField (sep : ascii) (s : string) : string :=
  match s with
  | EmptyString => EmptyString
  | String c rest =>
      if Ascii.eqb c sep then EmptyString else String c (firstField sep rest)
  end.

(** [s.includes(c)] for a one-character needle. *)
Fixpoint includes (c : ascii) (s : string) : bool :=
  match s with
  | EmptyString => false
  | String d rest => Ascii.eqb d c || includes c rest
  end.

(** [s.lastIndexOf(c)]: [i] is the index of the head of [s], [found] the
    last index seen so far ([-1] when none). *)
Fixpoint lastIndexOfFrom (c : ascii) (i found : Z) (s : string) : Z :=
  match s with
  | EmptyString => found
  | String d rest =>
      lastIndexOfFrom c (i + 1) (if Ascii.eqb d c then i else found) rest
  end.

Definition lastIndexOf (c : ascii) (s : string) : Z :=
  lastIndexOfFrom c 0 (-1) s.

(** [\d] *)
Definition isDigit (c : ascii) : bool :=
  let n := nat_of_ascii c in (48 <=? n)%nat && (n <=? 57)%nat.

(** Characters that [.] does not match, below U+0100: LF and CR. *)
Definition isLineTerminator (c : ascii) : bool :=
  Ascii.eqb c "010" || Ascii.eqb c "013".

(** [Number(digits)] for a non-empty run of decimal digits. *)
Fixpoint NumberFrom (acc : Z) (digits : string) : Z :=
  match digits with
  | EmptyString => acc
  | String c rest =>
      NumberFrom (10 * acc + (Z.of_nat (nat_of_ascii c) - 48)) rest
  end.

Definition Number_ (digits : string) : Z := NumberFrom 0 digits.

End JS.

(** ** types.ts *)

Module Types.

(** [Symbol(description)]: only the identity of a symbol is observable
    here, so a symbol is its serial number. *)
Definition symbol : Type := nat.

(** [verification?: boolean | { shouldReport?: (source, code) => boolean }] *)
Inductive Verification : Type :=
| VerificationAbsent
| VerificationBool (b : bool)
| VerificationObject (shouldReport : option (JS.value -> JS.value -> bool)).

Record CodeInformation : Type := {
  verification : Verification;
  __combineToken : option symbol;
}.

(** [Segment<CodeInformation>]: a plain string, or
    [[text, source, offset, data]]. *)
Inductive Code : Type :=
| Text (text : string)
| Mapped (text : string) (source : option string) (offset : Z)
         (data : CodeInformation).

(** [Mapping<CodeInformation>] of the source-map library. *)
Record Mapping : Type := {
  sourceOffsets : list Z;
  generatedOffsets : list Z;
  lengths : list Z;
  data : CodeInformation;
}.

End Types.
Import Types.

(** ** codegen/codeFeatures.ts *)

Module codeFeatures.

Definition none : CodeInformation :=
  {| verification := VerificationAbsent; __combineToken := None |}.

Definition verification : CodeInformation :=
  {| Types.verification := VerificationBool true; __combineToken := None |}.

Definition doNotReportTs2339AndTs2551 : CodeInformation :=
  {| Types.verification := VerificationObject (Some (fun _source code =>
       negb (String.eqb (JS.String_ code) "2339")
       && negb (String.eqb (JS.String_ code) "2551")));
     __combineToken := None |}.

Definition doNotReportTs2353AndTs2561 : CodeInformation :=
  {| Types.verification := VerificationObject (Some (fun _source code =>
       negb (String.eqb (JS.String_ code) "2353")
       && negb (String.eqb (JS.String_ code) "2561")));
     __combineToken := None |}.

Definition doNotReportTs6133 : CodeInformation :=
  {| Types.verification := VerificationObject (Some (fun _source code =>
       negb (String.eqb (JS.String_ code) "6133")));
     __combineToken := None |}.

End codeFeatures.

(** ** generateBoundary *)

Module Boundary.

(** The two overloads, told apart at run time by
    [typeof args[0] === "object"]. *)
Inductive Args : Type :=
| Open (features : CodeInformation)
| Wrap (end_ : Z) (features : CodeInformation) (codes : list Code).

(** The handle the open form returns. *)
Record Handle : Type := {
  token : symbol;
  end_ : Z -> Code;
}.

(** A finished generator run: what it yielded, what it returned, and the
    next unused symbol. *)
Record Run : Type := {
  yielded : list Code;
  returned : option Handle;
  nextSymbol : symbol;
}.

(** [{ ...features, __combineToken: token }] *)
Definition withToken (features : CodeInformation) (token : symbol)
  : CodeInformation :=
  {| verification := verification features; __combineToken := Some token |}.

(** [{ __combineToken: token }] *)
Definition onlyToken (token : symbol) : CodeInformation :=
  {| verification := VerificationAbsent; __combineToken := Some token |}.

(** [fresh] is the symbol that [Symbol(source)] mints in this call. *)
Definition generateBoundary (source : string) (start : Z) (args : Args)
    (fresh : symbol) : Run :=
  let token := fresh in
  match args with
  | Open features =>
      {| yielded := [Mapped "" (Some source) start (withToken features token)];
         returned := Some
           {| Boundary.token := token;
              end_ := fun offset =>
                Mapped "" (Some source) offset (onlyToken token) |};
         nextSymbol := S fresh |}
  | Wrap end_ features codes =>
      {| yielded :=
           [Mapped "" (Some source) start (withToken features token)]
           ++ codes
           ++ [Mapped "" (Some source) end_ (onlyToken token)];
         returned := None;
         nextSymbol := S fresh |}
  end.

(** Accessors of a fragment, [None] on a plain string. *)
Definition dataOf (c : Code) : option CodeInformation :=
  match c with
  | Text _ => None
  | Mapped _ _ _ d => Some d
  end.

Definition offsetOf (c : Code) : option Z :=
  match c with
  | Text _ => None
  | Mapped _ _ o _ => Some o
  end.

Definition textOf (c : Code) : string :=
  match c with
  | Text t => t
  | Mapped t _ _ _ => t
  end.

End Boundary.

(** ** core/codegen/index.ts *)

Module Codegen.

(** *** createMappings *)

(** First loop: one single-point mapping per mapped fragment, [length]
    being the running length of the generated text. *)
Fixpoint originalMappings (length : Z) (codes : list Code) : list Mapping :=
  match codes with
  | [] => []
  | Text code :: rest => originalMappings (length + JS.length code) rest
  | Mapped text _ offset data :: rest =>
      {| sourceOffsets := [offset];
         generatedOffsets := [length];
         lengths := [JS.length text];
         Types.data := data |}
      :: originalMappings (length + JS.length text) rest
  end.

(** [target.xs.push(...mapping.xs)] on the three arrays of [target]. *)
Definition pushOnto (mapping target : Mapping) : Mapping :=
  {| sourceOffsets := sourceOffsets target ++ sourceOffsets mapping;
     generatedOffsets := generatedOffsets target ++ generatedOffsets mapping;
     lengths := lengths target ++ lengths mapping;
     data := data target |}.

(** State of the second loop.  [tokens[token]] is a reference to an object
    that also sits in [mappings]; the reference is kept as the object's
    index in [mappings], so a push through [tokens[token]] is seen in
    [mappings]. *)
Record Combine : Type := {
  mappings : list Mapping;
  tokens : gmap symbol nat;
}.

Definition combine (st : Combine) (mapping : Mapping) : Combine :=
  match __combineToken (data mapping) with
  | Some token =>
      match tokens st !! token with
      | Some target =>
          {| mappings := alter (pushOnto mapping) target (mappings st);
             tokens := tokens st |}
      | None =>
          {| mappings := mappings st ++ [mapping];
             tokens := <[token := List.length (mappings st)]> (tokens st) |}
      end
  | None =>
      {| mappings := mappings st ++ [mapping]; tokens := tokens st |}
  end.

Definition combineAll (original : list Mapping) : list Mapping :=
  mappings (fold_left combine original {| mappings := []; tokens := ∅ |}).

Definition createMappings (codes : list Code) : list Mapping :=
  combineAll (originalMappings 0 codes).

(** *** createOffsetGetter, createLineAndColumnGetter *)

(** The loop that fills [lineOffsets], [i] being the index of the first
    character of [text]. *)
Fixpoint scanNewlines (i : Z) (text : string) : list Z :=
  match text with
  | EmptyString => []
  | String c rest =>
      if Ascii.eqb c "010"
      then (i + 1) :: scanNewlines (i + 1) rest
      else scanNewlines (i + 1) rest
  end.

Definition lineOffsets (text : string) : list Z := 0 :: scanNewlines 0 text.

(** [lineOffsets[line - 1] + column - 1]; an [undefined] read makes the
    sum [NaN]. *)
Definition createOffsetGetter (text : string) (line column : Z) : JS.number :=
  match JS.at_ (lineOffsets text) (line - 1) with
  | Some lineOffset => JS.Num (lineOffset + column - 1)
  | None => JS.NaN
  end.

Record LineAndColumn : Type := {
  line : Z;
  column : Z;
}.

(** The search loop of the getter: [i] is the index of the head of
    [offsets], [line] the value assigned so far. *)
Fixpoint findLine (offsets : list Z) (i line : nat) (offset : Z) : nat :=
  match offsets with
  | [] => line
  | lineOffset :: rest =>
      if offset <? lineOffset then line else findLine rest (S i) i offset
  end.

(** [lineOffsets[line]] is always in range (lemma [findLine_lookup]); the
    [None] branch stands for the unreachable [undefined] read. *)
Definition createLineAndColumnGetter (text : string) (offset : Z)
  : LineAndColumn :=
  let line := findLine (lineOffsets text) 0 0 offset in
  {| Codegen.line := Z.of_nat line + 1;
     column := match lineOffsets text !! line with
               | Some lineOffset => offset - lineOffset + 1
               | None => 0
               end |}.

End Codegen.

(** ** The position map *)

Module SourceMap.

(** Modelled from the spec: the class [SourceMap] is imported from the
    library [@vue/language-core] and its code is not in the repository.  The
    two queries follow section 4.3: an entry answers a query when the queried
    offset is among its offsets on the queried side, it yields the offset at
    the same index on the other side, entries are scanned in map order and
    indices in array order; the backward query skips the entries whose
    metadata the predicate rejects.  A [NaN] offset equals no offset. *)
Fixpoint matching (from to : list Z) (offset : Z) : list Z :=
  match from, to with
  | f :: from', t :: to' =>
      if f =? offset then t :: matching from' to' offset
      else matching from' to' offset
  | _, _ => []
  end.

(** Modelled from the spec: [toSource(generatedOffset, acceptPredicate)] of
    section 4.3 (the library's [toSourceLocation]); it yields pairs
    [[offset, mapping]]. *)
Definition toSourceLocation (mappings : list Mapping)
    (generatedOffset : JS.number) (filter : CodeInformation -> bool)
  : list (Z * Mapping) :=
  match generatedOffset with
  | JS.NaN => []
  | JS.Num g =>
      flat_map (fun mapping =>
        if filter (data mapping)
        then map (fun s => (s, mapping))
                 (matching (generatedOffsets mapping) (sourceOffsets mapping) g)
        else []) mappings
  end.

(** Modelled from the spec: [toGenerated(sourceOffset)] of section 4.3 (the
    library's [toGeneratedLocation]). *)
Definition toGeneratedLocation (mappings : list Mapping) (sourceOffset : Z)
  : list (Z * Mapping) :=
  flat_map (fun mapping =>
    map (fun g => (g, mapping))
        (matching (sourceOffsets mapping) (generatedOffsets mapping)
                  sourceOffset)) mappings.

End SourceMap.

(** ** core/project.ts *)

Module Project.
Import Codegen.

(** The part of [SourceFile] that [check] reads. *)
Record SourceFile : Type := {
  sourcePath : string;
  targetPath : string;
  sourceText : string;
  virtualText : option string;
  mapper : list Mapping;
  getSourceLineAndColumn : Z -> LineAndColumn;
  getVirtualOffset : Z -> Z -> JS.number;
}.

(** [toString(codes)] *)
Definition toString (codes : list Code) : string :=
  fold_right (fun code rest => String.append (Boundary.textOf code) rest)
             EmptyString codes.

(** The end of [createVirtualFile]: from the rebased [codes] to the file
    object.  The generation of [codes] is outside the embedding. *)
Definition createVirtualFile (sourcePath targetPath sourceText : string)
    (codes : list Code) : SourceFile :=
  let mappings := createMappings codes in
  let virtualText := toString codes in
  {| sourcePath := sourcePath;
     targetPath := targetPath;
     sourceText := sourceText;
     virtualText := Some virtualText;
     mapper := mappings;
     getSourceLineAndColumn := createLineAndColumnGetter sourceText;
     getVirtualOffset := createOffsetGetter virtualText |}.

Record Diagnostic : Type := {
  path : string;
  start : LineAndColumn;
  end_ : LineAndColumn;
  code : Z;
  message : string;
}.

(** *** isVerificationEnabled *)

(** [shouldReport?.(code) === true]: the callback gets [code] as its first
    argument and nothing as its second. *)
Definition isVerificationEnabled (data : CodeInformation) (code : Z) : bool :=
  match verification data with
  | VerificationBool true => true
  | VerificationObject (Some shouldReport) =>
      shouldReport (JS.VNumber code) JS.VUndefined
  | _ => false
  end.

(** *** diagnosticRE *)

(** The named groups of a match. *)
Record Groups : Type := {
  g_path : string;
  g_line : string;
  g_column : string;
  g_code : string;
  g_message : string;
}.

(** The longest run of digits at the head of [s], and what follows it. *)
Fixpoint digits (s : string) : string * string :=
  match s with
  | EmptyString => (EmptyString, EmptyString)
  | String c rest =>
      if JS.isDigit c
      then let '(ds, tail) := digits rest in (String c ds, tail)
      else (EmptyString, s)
  end.

(** [s] without the literal [literal] at its head. *)
Fixpoint literally (literal s : string) : option string :=
  match literal, s with
  | EmptyString, _ => Some s
  | String a literal', String b s' =>
      if Ascii.eqb a b then literally literal' s' else None
  | String _ _, EmptyString => None
  end.

Fixpoint noLineTerminator (s : string) : bool :=
  match s with
  | EmptyString => true
  | String c rest => negb (JS.isLineTerminator c) && noLineTerminator rest
  end.

Definition nonEmpty (s : string) : bool :=
  match s with
  | EmptyString => false
  | String _ _ => true
  end.

(** What follows the path in the pattern: a colon, the digits of the line,
    a colon, the digits of the column, the literal " - error TS", the digits
    of the code, a colon and a space, and the message up to the end of the
    text.  Every greedy run of digits is followed by a character that is not
    a digit, so it takes the whole run; the message holds no line
    terminator. *)
Definition matchAfterPath (s : string)
  : option (string * string * string * string) :=
  match literally ":" s with
  | None => None
  | Some s1 =>
    let '(line, s2) := digits s1 in
    if negb (nonEmpty line) then None else
    match literally ":" s2 with
    | None => None
    | Some s3 =>
      let '(column, s4) := digits s3 in
      if negb (nonEmpty column) then None else
      match literally " - error TS" s4 with
      | None => None
      | Some s5 =>
        let '(code, s6) := digits s5 in
        if negb (nonEmpty code) then None else
        match literally ": " s6 with
        | None => None
        | Some message =>
            if noLineTerminator message
            then Some (line, column, code, message)
            else None
        end
      end
    end
  end.

(** [text.match(diagnosticRE)]: the lazy group of the path tries the
    shortest path first and grows it one character (not a line terminator)
    at a time. *)
Fixpoint matchFrom (path text : string) : option Groups :=
  match matchAfterPath text with
  | Some (line, column, code, message) =>
      Some {| g_path := path; g_line := line; g_column := column;
              g_code := code; g_message := message |}
  | None =>
      match text with
      | EmptyString => None
      | String c rest =>
          if JS.isLineTerminator c then None
          else matchFrom (String.append path (String c EmptyString)) rest
      end
  end.

Definition diagnosticRE (text : string) : option Groups :=
  matchFrom EmptyString text.

(** *** parseDiagnostics *)

(** The variables of the parsing loop. *)
Record Parser : Type := {
  diagnostics : list Diagnostic;
  cursor : Z;
  padding : Z;
}.

Definition initial : Parser :=
  {| diagnostics := []; cursor := 0; padding := 0 |}.

(** [diagnostic.end = position] *)
Definition setEnd (position : LineAndColumn) (diagnostic : Diagnostic)
  : Diagnostic :=
  {| path := path diagnostic;
     start := start diagnostic;
     end_ := position;
     code := code diagnostic;
     message := message diagnostic |}.

(** The branch the loop body takes on a line. *)
Inductive Shape : Type :=
| Header (groups : Groups)
| Snippet
| Underline
| Noise.

Definition shape (cursor : Z) (text : string) : Shape :=
  match diagnosticRE text with
  | Some groups => Header groups
  | None =>
      if (Z.rem cursor 2 =? 0) && negb (JS.length text =? 0) then Snippet
      else if (Z.rem cursor 2 =? 1) && JS.includes "~" text then Underline
      else Noise
  end.

Section Parse.

(** [resolve] of the library [pathe]. *)
Variable resolve : string -> string.

(** One turn of the loop, [cursor++] included.  [diagnostics.at(-1)!] is
    [undefined] on an empty array, and reading [.start] of it throws. *)
Definition parseLine (st : Parser) (text : string) : JS.result Parser :=
  match shape (cursor st) text with
  | Header groups =>
      JS.Ok {| diagnostics := diagnostics st ++ [
                 {| path := resolve (g_path groups);
                    code := JS.Number_ (g_code groups);
                    start := {| line := JS.Number_ (g_line groups);
                                column := JS.Number_ (g_column groups) |};
                    end_ := {| line := 0; column := 0 |};
                    message := g_message groups |} ];
               cursor := 0 + 1;
               padding := padding st |}
  | Snippet =>
      JS.Ok {| diagnostics := diagnostics st;
               cursor := cursor st + 1;
               padding := JS.length (JS.firstField " " text) |}
  | Underline =>
      match last (diagnostics st) with
      | None =>
          JS.Throw "TypeError: Cannot read properties of undefined (reading 'start')"
      | Some diagnostic =>
          JS.Ok {| diagnostics :=
                     alter (setEnd
                       {| line := line (start diagnostic) + (cursor st - 3) / 2;
                          column := JS.lastIndexOf "~" text + 1 - padding st |})
                       (pred (List.length (diagnostics st))) (diagnostics st);
                   cursor := cursor st + 1;
                   padding := padding st |}
      end
  | Noise =>
      JS.Ok {| diagnostics := diagnostics st;
               cursor := cursor st + 1;
               padding := padding st |}
  end.

Fixpoint parseLines (st : Parser) (lines : list string) : JS.result Parser :=
  match lines with
  | [] => JS.Ok st
  | text :: rest =>
      match parseLine st text with
      | JS.Ok st' => parseLines st' rest
      | JS.Throw error => JS.Throw error
      end
  end.

(** [groups[diagnostic.path]] with its insertion order: the keys are
    resolved (absolute) paths, so none is an array index or a property of
    [Object.prototype]. *)
Fixpoint addToGroup (groups : list (string * list Diagnostic))
    (diagnostic : Diagnostic) : list (string * list Diagnostic) :=
  match groups with
  | [] => [(path diagnostic, [diagnostic])]
  | (key, group) :: rest =>
      if String.eqb key (path diagnostic)
      then (key, group ++ [diagnostic]) :: rest
      else (key, group) :: addToGroup rest diagnostic
  end.

Definition parseDiagnostics (stdout : string)
  : JS.result (list (string * list Diagnostic)) :=
  match parseLines initial (JS.split "010" (JS.trim stdout)) with
  | JS.Ok st => JS.Ok (fold_left addToGroup (diagnostics st) [])
  | JS.Throw error => JS.Throw error
  end.

End Parse.

(** *** The remap loop of check *)

(** [for (const [offset] of generator) { x = offset; break; }] *)
Definition firstOffset (yields : list (Z * Mapping)) : option Z :=
  match yields with
  | [] => None
  | (offset, _) :: _ => Some offset
  end.

(** The body of the inner loop for a known file: [None] when the diagnostic
    is spliced out. *)
Definition remap (sourceFile : SourceFile) (diagnostic : Diagnostic)
  : option Diagnostic :=
  let start_ := getVirtualOffset sourceFile
                  (line (start diagnostic)) (column (start diagnostic)) in
  let end_ := getVirtualOffset sourceFile
                (line (end_ diagnostic)) (column (end_ diagnostic)) in
  let left := firstOffset (SourceMap.toSourceLocation (mapper sourceFile) start_
                (fun data => isVerificationEnabled data (code diagnostic))) in
  let right := firstOffset (SourceMap.toSourceLocation (mapper sourceFile) end_
                 (fun data => isVerificationEnabled data (code diagnostic))) in
  if JS.falsy left || JS.falsy right then None
  else match left, right with
       | Some l, Some r =>
           Some {| path := path diagnostic;
                   start := getSourceLineAndColumn sourceFile l;
                   end_ := getSourceLineAndColumn sourceFile r;
                   code := code diagnostic;
                   message := message diagnostic |}
       | _, _ => None
       end.

(** The inner loop: [splice(i--, 1); continue] drops the current element
    and goes on with the one that follows it. *)
Fixpoint remapAll (sourceFile : SourceFile) (diagnostics : list Diagnostic)
  : list Diagnostic :=
  match diagnostics with
  | [] => []
  | diagnostic :: rest =>
      match remap sourceFile diagnostic with
      | None => remapAll sourceFile rest
      | Some remapped => remapped :: remapAll sourceFile rest
      end
  end.

(** [path.startsWith(prefix)] *)
Fixpoint startsWith (prefix s : string) : bool :=
  match prefix, s with
  | EmptyString, _ => true
  | String a prefix', String b s' => Ascii.eqb a b && startsWith prefix' s'
  | String _ _, EmptyString => false
  end.

(** [path.replace(cacheRoot, mutualRoot)] when [path] starts with
    [cacheRoot] (dollar patterns in [mutualRoot] are not modelled). *)
Definition rewritePath (cacheRoot mutualRoot path : string) : string :=
  if startsWith cacheRoot path
  then String.append mutualRoot
         (String.substring (String.length cacheRoot)
            (String.length path - String.length cacheRoot) path)
  else path.

(** One group of [check]: the path and the diagnostics that are rendered. *)
Definition checkGroup (targetToSource : gmap string SourceFile)
    (cacheRoot mutualRoot : string) (group : string * list Diagnostic)
  : string * list Diagnostic :=
  let '(path, diagnostics) := group in
  match targetToSource !! path with
  | None =>
      (Nat.iter (List.length diagnostics) (rewritePath cacheRoot mutualRoot) path,
       diagnostics)
  | Some sourceFile =>
      (match diagnostics with [] => path | _ :: _ => sourcePath sourceFile end,
       remapAll sourceFile diagnostics)
  end.

End Project.

(** ** The second pass in the words of the specification *)

Module Compact.
Import Codegen.

Definition tokenOf (mapping : Mapping) : option symbol :=
  __combineToken (data mapping).

(** The entries that carry [token], in emission order. *)
Definition occurrences (token : symbol) (original : list Mapping)
  : list Mapping :=
  filter (fun mapping => tokenOf mapping = Some token) original.


(** The tokens met in a list of entries. *)
Definition tokensIn (original : list Mapping) : gset symbol :=
  list_to_set (omap tokenOf original).

(** The entries that stay: those without a token and, for each token not in
    [seen], its first occurrence. *)
Fixpoint representatives (seen : gset symbol) (original : list Mapping)
  : list Mapping :=
  match original with
  | [] => []
  | mapping :: rest =>
      match tokenOf mapping with
      | None => mapping :: representatives seen rest
      | Some token =>
          if decide (token ∈ seen) then representatives seen rest
          else mapping :: representatives ({[token]} ∪ seen) rest
      end
  end.

(** A representative with the arrays of all the occurrences of its token
    appended in order. *)
Definition merged (representative : Mapping) (occurrences : list Mapping)
  : Mapping :=
  {| sourceOffsets := concat (map sourceOffsets occurrences);
     generatedOffsets := concat (map generatedOffsets occurrences);
     lengths := concat (map lengths occurrences);
     data := data representative |}.

Definition fused (original : list Mapping) (mapping : Mapping) : Mapping :=
  match tokenOf mapping with
  | None => mapping
  | Some token => merged mapping (occurrences token original)
  end.

(** The position map as section 4.2 describes it. *)
Definition compacted (original : list Mapping) : list Mapping :=
  map (fused original) (representatives ∅ original).

(** The mapped fragments of a code sequence that carry [token]. *)
Definition fragmentsWith (token : symbol) (codes : list Code) : list Code :=
  filter (fun code => Boundary.dataOf code ≫= __combineToken = Some token) codes.

(** A code sequence in which every mapped fragment that carries a token
    already in [seen], or met earlier in the sequence, keeps the token and
    loses the rest of its metadata. *)
Fixpoint forgetLater (seen : gset symbol) (codes : list Code) : list Code :=
  match codes with
  | [] => []
  | Text text :: rest => Text text :: forgetLater seen rest
  | Mapped text source offset data :: rest =>
      match __combineToken data with
      | None => Mapped text source offset data :: forgetLater seen rest
      | Some token =>
          if decide (token ∈ seen)
          then Mapped text source offset (Boundary.onlyToken token)
               :: forgetLater seen rest
          else Mapped text source offset data
               :: forgetLater ({[token]} ∪ seen) rest
      end
  end.

(** What the second loop of [createMappings] maintains after the entries
    [seen]: the output is their compacted map, and [tokens] points every
    token met so far to its representative. *)
Definition combined (seen : list Mapping) (st : Combine) : Prop :=
  mappings st = compacted seen
  ∧ ∀ (token : symbol) (i : nat),
      tokens st !! token = Some i
      ↔ ∃ r, representatives ∅ seen !! i = Some r ∧ tokenOf r = Some token.

End Compact.

(** ** Notions used in the statements about the parser and the remap *)

Module Report.
Import Codegen Project.

(** The end position of a diagnostic whose underline was never read. *)
Definition unset : LineAndColumn := {| line := 0; column := 0 |}.

(** No line takes the underline branch of the loop before the next header,
    [cursor] being the value of the line counter at the first line. *)
Fixpoint noUnderline (cursor : Z) (lines : list string) : bool :=
  match lines with
  | [] => true
  | text :: rest =>
      match shape cursor text with
      | Header _ => true
      | Underline => false
      | Snippet | Noise => noUnderline (cursor + 1) rest
      end
  end.

(** The last line that took the snippet branch, [current] being the one
    known before [lines] and [cursor] the line counter at the first line. *)
Fixpoint lastSnippet (cursor : Z) (current : option string)
    (lines : list string) : option string :=
  match lines with
  | [] => current
  | text :: rest =>
      match shape cursor text with
      | Header _ => lastSnippet 1 current rest
      | Snippet => lastSnippet (cursor + 1) (Some text) rest
      | Underline | Noise => lastSnippet (cursor + 1) current rest
      end
  end.

(** The gutter width recorded from a snippet line. *)
Definition gutter (snippet : option string) : Z :=
  match snippet with
  | Some text => JS.length (JS.firstField " " text)
  | None => 0
  end.

(** The closing fragment of an open boundary carries the token of the
    opening fragment and the verification policy of [m]. *)
Definition closerKeepsMetadata (source : string) (start : Z)
    (m : CodeInformation) (fresh : symbol) (offset : Z) : Prop :=
  match Boundary.returned
          (Boundary.generateBoundary source start (Boundary.Open m) fresh) with
  | Some handle =>
      ∃ d, Boundary.dataOf (Boundary.end_ handle offset) = Some d
           ∧ __combineToken d = Some (Boundary.token handle)
           ∧ verification d = verification m
  | None => False
  end.

End Report.

(** ** Sample inputs *)

Module Sample.
Import Codegen Project.

Definition newline : string := String "010" EmptyString.

(** Three lines of text. *)
Definition threeLines : string :=
  String.append "ab" (String.append newline
    (String.append "cd" (String.append newline "ef"))).

(** A wrapped boundary around a literal, followed by an untokened fragment. *)
Definition wrapped : list Code :=
  Text "const x = "
  :: Boundary.yielded
       (Boundary.generateBoundary "template" 4
          (Boundary.Wrap 9 codeFeatures.verification [Text "a.b"]) 1%nat)
  ++ [Mapped ".c" (Some "template") 9 codeFeatures.none; Text ";"].

(** An entry whose region suppresses the codes 2339 and 2551. *)
Definition suppressed : Mapping :=
  {| sourceOffsets := [10];
     generatedOffsets := [12];
     lengths := [2];
     data := codeFeatures.doNotReportTs2339AndTs2551 |}.

(** A file whose first generated character comes from the first character
    of the original text, in a verified region. *)
Definition fromOffsetZero : SourceFile :=
  createVirtualFile "/project/a.vue" "/cache/a.vue.ts" "x" 
    [Mapped "x" None 0 codeFeatures.verification].

Definition atFirstCharacter : Diagnostic :=
  {| path := "/cache/a.vue.ts";
     start := {| line := 1; column := 1 |};
     end_ := {| line := 1; column := 1 |};
     code := 2304;
     message := "Cannot find name 'x'." |}.

(** A report of one diagnostic block, before its underline. *)
Definition blockHead : list string :=
  [ "/cache/a.vue.ts:3:13 - error TS2339: Property 'c' does not exist.";
    "";
    "3 const x = a.b.c;" ].

Definition blockUnderline : string := "              ~".

(** The diagnostic of that block, and the loop's variables after
    [blockHead]. *)
Definition blockDiagnostic : Diagnostic :=
  {| path := "/cache/a.vue.ts";
     start := {| line := 3; column := 13 |};
     end_ := {| line := 0; column := 0 |};
     code := 2339;
     message := "Property 'c' does not exist." |}.

Definition afterBlockHead : Parser :=
  {| diagnostics := [blockDiagnostic]; cursor := 3; padding := 1 |}.

(** The same block cut before its underline, as the checker's output. *)
Definition truncated : string :=
  String.append
    "/cache/a.vue.ts:3:13 - error TS2339: Property 'c' does not exist."
    (String.append newline (String.append newline "3 const x = a.b.c;")).

(** A line with a tilde right after a line that is no header. *)
Definition earlyTilde : string :=
  String.append "warning: slow" (String.append newline "in ~/project").

End Sample.

(** ** getMutualRoot *)

Module Paths.

(** The inner loop of [getMutualRoot]: how many times the pattern starts
    with "../" again after the previous one was sliced off. *)
Fixpoint upward (pattern : string) : nat :=
  match pattern with
  | String a (String b (String c rest)) =>
      if Ascii.eqb a "." && Ascii.eqb b "." && Ascii.eqb c "/"
      then S (upward rest)
      else 0%nat
  | _ => 0%nat
  end.

(** The outer loop: the greatest level met. *)
Definition upwardLevel (patterns : list string) : nat :=
  fold_left (fun upwardLevel pattern =>
               let level := upward pattern in
               if (upwardLevel <? level)%nat then level else upwardLevel)
            patterns 0%nat.

Section Join.

(** [join] of the library [pathe], applied to its list of arguments. *)
Variable join : list string -> string.

Definition getMutualRoot (patterns : list string) (configRoot : string)
  : string :=
  join (configRoot :: repeat ".." (upwardLevel patterns)).

End Join.

(** [n] copies of "../" in front of [rest]. *)
Fixpoint climb (n : nat) (rest : string) : string :=
  match n with
  | O => rest
  | S n' => String.append "../" (climb n' rest)
  end.

End Paths.

(** ** Rebasing fragments and patching imports *)

Module Virtual.
Import Codegen Project.

(** The fields of an [IRBlock] that [createVirtualFile] reads. *)
Record IRBlock : Type := {
  name : string;
  innerStart : Z;
}.

(** [blocks[block.name] = block] over the blocks that are present, in the
    order template, script, scriptSetup, styles, custom blocks. *)
Definition collectBlocks (present : list IRBlock) : gmap string IRBlock :=
  fold_left (fun blocks block => <[name block := block]> blocks) present ∅.

(** The callback of [generatedScript.codes.map]: a fragment of a known
    block gets a whole-file offset and loses its source. *)
Definition rebase (blocks : gmap string IRBlock) (code : Code) : Code :=
  match code with
  | Text _ => code
  | Mapped text source offset data =>
      match source with
      | None => code
      | Some blockName =>
          if String.eqb blockName "main" then code
          else match blocks !! blockName with
               | None => code
               | Some block =>
                   Mapped text None (offset + innerStart block) data
               end
      end
  end.

(** The correspondences of an entry: source offset, generated offset and
    length at each index. *)
Definition points (mapping : Mapping) : list (Z * Z * Z) :=
  zip (zip (sourceOffsets mapping) (generatedOffsets mapping))
      (lengths mapping).

(** The three arrays of an entry are parallel. *)
Definition parallel (mapping : Mapping) : Prop :=
  List.length (sourceOffsets mapping) = List.length (generatedOffsets mapping)
  ∧ List.length (generatedOffsets mapping) = List.length (lengths mapping).

(** Two entries that differ at most in their source offsets. *)
Definition sameGenerated (m1 m2 : Mapping) : Prop :=
  generatedOffsets m1 = generatedOffsets m2
  ∧ lengths m1 = lengths m2
  ∧ data m1 = data m2.

(** [s.slice(start, end)] *)
Definition slice (s : string) (start end_ : Z) : string :=
  let len := JS.length s in
  let from := if start <? 0 then Z.max (len + start) 0 else Z.min start len in
  let to := if end_ <? 0 then Z.max (len + end_) 0 else Z.min end_ len in
  String.substring (Z.to_nat from) (Z.to_nat (to - from)) s.

(** [s.slice(start)] *)
Definition sliceFrom (s : string) (start : Z) : string :=
  slice s start (JS.length s).

(** [c.repeat(n)] for a one-character string and [n >= 0]. *)
Fixpoint repeatChar (c : ascii) (n : nat) : string :=
  match n with
  | O => EmptyString
  | S n' => String c (repeatChar c n')
  end.

(** [s.padStart(4, "_")] *)
Definition padStart4 (s : string) : string :=
  String.append (repeatChar "_" (4 - String.length s)) s.

(** The body of the import loop of [generate]: the four characters at
    [offset] give way to the extension of the imported virtual file. *)
Definition patchImport (virtualText : string) (offset : Z)
    (virtualLang : string) : string :=
  String.append (slice virtualText 0 offset)
    (String.append (padStart4 (String.append "." virtualLang))
       (sliceFrom virtualText (offset + 4))).

End Virtual.

(** ** Notions about diagnostic headers *)

Module Header.
Import Codegen Project.

(** Every character is a decimal digit. *)
Fixpoint allDigits (s : string) : bool :=
  match s with
  | EmptyString => true
  | String c rest => JS.isDigit c && allDigits rest
  end.

Definition startsWithDigit (s : string) : bool :=
  match s with
  | EmptyString => false
  | String c _ => JS.isDigit c
  end.

(** No colon of the text is followed by a digit. *)
Fixpoint noColonDigit (s : string) : bool :=
  match s with
  | EmptyString => true
  | String c rest =>
      negb (Ascii.eqb c ":" && startsWithDigit rest) && noColonDigit rest
  end.

(** The header line of a diagnostic as the checker prints it and as
    [check] prints it again:
    [path:line:column - error TScode: message]. *)
Definition render (groups : Groups) : string :=
  String.append (g_path groups)
    (String.append ":" (String.append (g_line groups)
      (String.append ":" (String.append (g_column groups)
        (String.append " - error TS" (String.append (g_code groups)
          (String.append ": " (g_message groups)))))))).

(** A line on which [diagnosticRE] matches. *)
Definition isHeader (text : string) : bool :=
  match diagnosticRE text with
  | Some _ => true
  | None => false
  end.

(** What the remap loop leaves alone in a diagnostic. *)
Definition identity (d : Diagnostic) : string * Z * string :=
  (path d, code d, message d).

End Header.

(** ** parseSFC and createBlock *)

Module SFC.

(** The parts of the nodes of [@vue/compiler-dom] that the code reads. *)
Record Position : Type := {
  line : Z;
  column : Z;
  offset : Z;
}.

Record SourceLocation : Type := {
  start : Position;
  end_ : Position;
  source : string;
}.

(** The value of an attribute: a text node. *)
Record TextNode : Type := {
  content : string;
  loc : SourceLocation;
}.

(** [node.props]: attributes and directives. *)
Inductive Prop_ : Type :=
| ATTRIBUTE (name : string) (value : option TextNode)
| DIRECTIVE (name : string).

Inductive Node : Type :=
| COMMENT (content : string) (loc : SourceLocation)
| ELEMENT (tag : string) (loc : SourceLocation) (props : list Prop_)
          (children : list Node)
| OTHER (loc : SourceLocation).

Definition locOf (node : Node) : SourceLocation :=
  match node with
  | COMMENT _ loc => loc
  | ELEMENT _ loc _ _ => loc
  | OTHER loc => loc
  end.

(** [IRBlockAttr]: [true] or the text of the value with its place. *)
Inductive IRBlockAttr : Type :=
| AttrTrue
| AttrText (text : string) (offset : Z) (quotes : bool).

(** What [attrs] holds: [prop.value ? prop.value.content || true : true]. *)
Inductive AttrValue : Type :=
| IsTrue
| IsText (text : string).

Definition attrValue (value : option TextNode) : AttrValue :=
  match value with
  | Some text =>
      match content text with
      | EmptyString => IsTrue
      | String _ _ => IsText (content text)
      end
  | None => IsTrue
  end.

(** Truthiness of [block.setup]. *)
Definition truthy (value : option AttrValue) : bool :=
  match value with
  | None => false
  | Some IsTrue => true
  | Some (IsText EmptyString) => false
  | Some (IsText (String _ _)) => true
  end.

(** [SFCBlock] with the fields the declarations of the module add. *)
Record Block : Type := {
  type : string;
  b_content : string;
  b_loc : SourceLocation;
  attrs : gmap string AttrValue;
  lang : option string;
  __src : option IRBlockAttr;
  setup : option AttrValue;
  scoped : bool;
  __generic : option IRBlockAttr;
  __module : option IRBlockAttr;
}.

(** [haystack.indexOf(needle)], counted from [i]. *)
Fixpoint indexOfFrom (needle : string) (i : Z) (haystack : string) : Z :=
  if Project.startsWith needle haystack then i
  else match haystack with
       | EmptyString => -1
       | String _ rest => indexOfFrom needle (i + 1) rest
       end.

Definition indexOf (needle haystack : string) : Z :=
  indexOfFrom needle 0 haystack.

Section Shared.

(** [getAttributeValueOffset] of the module [shared]. *)
Variable getAttributeValueOffset : TextNode -> Z.

Definition createAttr (value : option TextNode) (nodeLoc : SourceLocation)
  : IRBlockAttr :=
  match value with
  | None => AttrTrue
  | Some text =>
      let offset_ := getAttributeValueOffset text in
      AttrText (content text) (offset_ - offset (start nodeLoc))
               (offset (start (loc text)) <? offset_)
  end.

(** One turn of the loop over [node.props]. *)
Definition addProp (nodeLoc : SourceLocation) (block : Block) (prop : Prop_)
  : Block :=
  match prop with
  | DIRECTIVE _ => block
  | ATTRIBUTE name value =>
      let attrs' := <[name := attrValue value]> (attrs block) in
      let block := {| type := type block; b_content := b_content block;
                      b_loc := b_loc block; attrs := attrs';
                      lang := lang block; __src := __src block;
                      setup := setup block; scoped := scoped block;
                      __generic := __generic block;
                      __module := __module block |} in
      if String.eqb name "lang" then
        {| type := type block; b_content := b_content block;
           b_loc := b_loc block; attrs := attrs';
           lang := option_map content value; __src := __src block;
           setup := setup block; scoped := scoped block;
           __generic := __generic block; __module := __module block |}
      else if String.eqb name "src" then
        {| type := type block; b_content := b_content block;
           b_loc := b_loc block; attrs := attrs';
           lang := lang block; __src := Some (createAttr value nodeLoc);
           setup := setup block; scoped := scoped block;
           __generic := __generic block; __module := __module block |}
      else if String.eqb (type block) "script" then
        if String.eqb name "setup" then
          {| type := type block; b_content := b_content block;
             b_loc := b_loc block; attrs := attrs';
             lang := lang block; __src := __src block;
             setup := Some (attrValue value); scoped := scoped block;
             __generic := __generic block; __module := __module block |}
        else if String.eqb name "vapor" then
          {| type := type block; b_content := b_content block;
             b_loc := b_loc block; attrs := attrs';
             lang := lang block; __src := __src block;
             setup := match setup block with
                      | Some value' => Some value'
                      | None => Some (attrValue value)
                      end;
             scoped := scoped block;
             __generic := __generic block; __module := __module block |}
        else if String.eqb name "generic" then
          {| type := type block; b_content := b_content block;
             b_loc := b_loc block; attrs := attrs';
             lang := lang block; __src := __src block;
             setup := setup block; scoped := scoped block;
             __generic := Some (createAttr value nodeLoc);
             __module := __module block |}
        else block
      else if String.eqb (type block) "style" then
        if String.eqb name "scoped" then
          {| type := type block; b_content := b_content block;
             b_loc := b_loc block; attrs := attrs';
             lang := lang block; __src := __src block;
             setup := setup block; scoped := true;
             __generic := __generic block; __module := __module block |}
        else if String.eqb name "module" then
          {| type := type block; b_content := b_content block;
             b_loc := b_loc block; attrs := attrs';
             lang := lang block; __src := __src block;
             setup := setup block; scoped := scoped block;
             __generic := __generic block;
             __module := Some (createAttr value nodeLoc) |}
        else block
      else block
  end.

(** [createBlock(node, source)] for an element node. *)
Definition createBlock (tag : string) (nodeLoc : SourceLocation)
    (props : list Prop_) (children : list Node) (source_ : string) : Block :=
  let '(start_, end__, content_) :=
    match children, last children with
    | first :: _, Some last_ =>
        let start_ := start (locOf first) in
        let end__ := end_ (locOf last_) in
        (start_, end__,
         Virtual.slice source_ (offset start_) (offset end__))
    | _, _ =>
        let found := indexOf "</" (source nodeLoc) in
        let start_ :=
          if found =? -1 then start nodeLoc
          else {| line := line (start nodeLoc);
                  column := column (start nodeLoc) + found;
                  offset := offset (start nodeLoc) + found |} in
        (start_, start_, EmptyString)
    end in
  fold_left (addProp nodeLoc) props
    {| type := tag; b_content := content_;
       b_loc := {| start := start_; end_ := end__; source := content_ |};
       attrs := ∅; lang := None; __src := None; setup := None;
       scoped := false; __generic := None; __module := None |}.

(** The fields of the descriptor that [parseSFC] fills. *)
Record Descriptor : Type := {
  comments : list string;
  template : option Block;
  script : option Block;
  scriptSetup : option Block;
  styles : list Block;
  customBlocks : list Block;
}.

(** One turn of the loop over [ast.children]. *)
Definition visit (source_ : string) (descriptor : Descriptor) (node : Node)
  : Descriptor :=
  match node with
  | COMMENT content_ _ =>
      {| comments := comments descriptor ++ [content_];
         template := template descriptor; script := script descriptor;
         scriptSetup := scriptSetup descriptor; styles := styles descriptor;
         customBlocks := customBlocks descriptor |}
  | OTHER _ => descriptor
  | ELEMENT tag nodeLoc props children =>
      let block := createBlock tag nodeLoc props children source_ in
      if String.eqb tag "template" then
        {| comments := comments descriptor;
           template := Some block; script := script descriptor;
           scriptSetup := scriptSetup descriptor; styles := styles descriptor;
           customBlocks := customBlocks descriptor |}
      else if String.eqb tag "script" then
        if truthy (setup block) then
          {| comments := comments descriptor;
             template := template descriptor; script := script descriptor;
             scriptSetup := Some block; styles := styles descriptor;
             customBlocks := customBlocks descriptor |}
        else
          {| comments := comments descriptor;
             template := template descriptor; script := Some block;
             scriptSetup := scriptSetup descriptor;
             styles := styles descriptor;
             customBlocks := customBlocks descriptor |}
      else if String.eqb tag "style" then
        {| comments := comments descriptor;
           template := template descriptor; script := script descriptor;
           scriptSetup := scriptSetup descriptor;
           styles := styles descriptor ++ [block];
           customBlocks := customBlocks descriptor |}
      else
        {| comments := comments descriptor;
           template := template descriptor; script := script descriptor;
           scriptSetup := scriptSetup descriptor; styles := styles descriptor;
           customBlocks := customBlocks descriptor ++ [block] |}
  end.

(** [parseSFC(source)], from the children of the tree that
    [CompilerDOM.parse] returns. *)
Definition parseSFC (source_ : string) (children : list Node) : Descriptor :=
  fold_left (visit source_) children
    {| comments := []; template := None; script := None;
       scriptSetup := None; styles := []; customBlocks := [] |}.

(** The block of an element, [None] for the other nodes. *)
Definition blockOf (source_ : string) (node : Node) : option Block :=
  match node with
  | ELEMENT tag nodeLoc props children =>
      Some (createBlock tag nodeLoc props children source_)
  | _ => None
  end.

End Shared.

(** The content of a comment node. *)
Definition commentOf (node : Node) : option string :=
  match node with
  | COMMENT content_ _ => Some content_
  | _ => None
  end.

(** An attribute named "setup" or "vapor". *)
Definition marksSetup (prop : Prop_) : bool :=
  match prop with
  | ATTRIBUTE name _ => String.eqb name "setup" || String.eqb name "vapor"
  | DIRECTIVE _ => false
  end.

End SFC.


(** ** Inputs of the further instances *)

Module Fixture.
Import Codegen Project.

(** The virtual text of the import of a component: the path ends in the
    four blanks that [transformImportRanges] puts before the closing
    quote. *)
Definition importing : string := "import A from './A.vue    ';".

(** The header of [Sample.blockHead] and its parts. *)
Definition header : string :=
  "/cache/a.vue.ts:3:13 - error TS2339: Property 'c' does not exist.".

Definition headerGroups : Groups :=
  {| g_path := "/cache/a.vue.ts";
     g_line := "3";
     g_column := "13";
     g_code := "2339";
     g_message := "Property 'c' does not exist." |}.

(** The opening fragments of two boundaries and a fragment without
    token. *)
Definition distinctTokens : list Code :=
  [ Mapped "a" (Some "template") 4
      (Boundary.withToken codeFeatures.verification 1%nat);
    Text ".";
    Mapped "b" (Some "template") 6
      (Boundary.withToken codeFeatures.verification 2%nat);
    Mapped ".c" (Some "template") 9 codeFeatures.none ].

(** A report of three headers over two files, and its diagnostics. *)
Definition twoFiles : string :=
  String.append header
    (String.append Sample.newline
       (String.append "/cache/b.ts:1:1 - error TS2304: Cannot find name 'y'."
          (String.append Sample.newline
             "/cache/a.vue.ts:7:2 - error TS2322: Type mismatch."))).

Definition inB : Diagnostic :=
  {| path := "/cache/b.ts";
     start := {| line := 1; column := 1 |};
     end_ := {| line := 0; column := 0 |};
     code := 2304;
     message := "Cannot find name 'y'." |}.

Definition laterInA : Diagnostic :=
  {| path := "/cache/a.vue.ts";
     start := {| line := 7; column := 2 |};
     end_ := {| line := 0; column := 0 |};
     code := 2322;
     message := "Type mismatch." |}.

Definition twoGroups : list (string * list Diagnostic) :=
  [ ("/cache/a.vue.ts", [Sample.blockDiagnostic; laterInA]);
    ("/cache/b.ts", [inB]) ].

End Fixture.

(** * Properties *)

Import Codegen Compact.

(** ** Line and column getters *)

Lemma findLine_range (offsets : list Z) (i line : nat) (offset : Z) :
  findLine offsets i line offset = line
  ∨ (i <= findLine offsets i line offset < i + List.length offsets)%nat.
Proof.
  revert i line. induction offsets as [|o rest IH]; intros i line; simpl.
  - by left.
  - destruct (offset <? o); [by left|].
    destruct (IH (S i) i) as [-> | H]; right; lia.
Qed.

Lemma findLine_lookup (text : string) (offset : Z) :
  is_Some (lineOffsets text !! findLine (lineOffsets text) 0 0 offset).
Proof.
  apply lookup_lt_is_Some.
  destruct (findLine_range (lineOffsets text) 0 0 offset) as [-> | H].
  - unfold lineOffsets. simpl. lia.
  - lia.
Qed.

Lemma round_trip_any (text : string) (o : Z) :
  createOffsetGetter text
    (line (createLineAndColumnGetter text o))
    (column (createLineAndColumnGetter text o)) = JS.Num o.
Proof.
  destruct (findLine_lookup text o) as [x Hx].
  unfold createOffsetGetter, createLineAndColumnGetter, JS.at_.
  cbn [line column].
  set (k := findLine (lineOffsets text) 0 0 o) in *.
  replace (Z.of_nat k + 1 - 1) with (Z.of_nat k) by lia.
  destruct (Z.ltb_spec (Z.of_nat k) 0); [lia|].
  rewrite Nat2Z.id, Hx. f_equal. lia.
Qed.

Lemma findLine_le (offsets : list Z) (offset : Z) (before rest : list Z)
    (line : nat) (x : Z) :
  offsets = before ++ rest →
  (∀ y, offsets !! line = Some y → y <= offset) →
  offsets !! findLine rest (List.length before) line offset = Some x →
  x <= offset.
Proof.
  revert before line. induction rest as [|o rest IH]; intros before line Hoff Hline;
    simpl.
  - apply Hline.
  - destruct (Z.ltb_spec offset o) as [Hlt|Hge]; [apply Hline|].
    replace (S (List.length before)) with (List.length (before ++ [o]))
      by (rewrite length_app; simpl; lia).
    apply IH.
    + by rewrite <-app_assoc.
    + intros y. rewrite Hoff, list_lookup_middle by done. intros [= <-]. lia.
Qed.

(** C8. Line/column round-trip: for every text and every offset [o] with
    [0 <= o < text.length], the getter built by [createLineAndColumnGetter]
    gives a line and a column that are both at least 1, and the getter built
    by [createOffsetGetter] over the same text gives back exactly [o] for
    them. *)
Theorem line_column_round_trip (text : string) (o : Z) :
  0 <= o < JS.length text →
  1 <= line (createLineAndColumnGetter text o)
  ∧ 1 <= column (createLineAndColumnGetter text o)
  ∧ createOffsetGetter text
      (line (createLineAndColumnGetter text o))
      (column (createLineAndColumnGetter text o)) = JS.Num o.
Proof.
  intros [Ho _]. split; [|split].
  - unfold createLineAndColumnGetter. cbn [line]. lia.
  - unfold createLineAndColumnGetter. cbn [column].
    destruct (findLine_lookup text o) as [x Hx]. rewrite Hx.
    assert (x <= o); [|lia].
    apply (findLine_le (lineOffsets text) o [] (lineOffsets text) 0 x);
      [done | | done].
    unfold lineOffsets. simpl. intros y [= <-]. lia.
  - apply round_trip_any.
Qed.

(** ** The second loop of createMappings computes the compacted map *)

Lemma elem_of_tokensIn (token : symbol) (original : list Mapping) :
  token ∈ tokensIn original ↔ ∃ m, m ∈ original ∧ tokenOf m = Some token.
Proof.
  unfold tokensIn. rewrite elem_of_list_to_set, list_elem_of_omap. done.
Qed.

Lemma tokensIn_cons (m : Mapping) (original : list Mapping) :
  tokensIn (m :: original)
  = match tokenOf m with
    | Some token => {[token]} ∪ tokensIn original
    | None => tokensIn original
    end.
Proof. unfold tokensIn. simpl. by destruct (tokenOf m). Qed.

Lemma occurrences_app (token : symbol) (l1 l2 : list Mapping) :
  occurrences token (l1 ++ l2) = occurrences token l1 ++ occurrences token l2.
Proof. apply filter_app. Qed.

Lemma occurrences_fresh (token : symbol) (original : list Mapping) :
  token ∉ tokensIn original → occurrences token original = [].
Proof.
  unfold occurrences. induction original as [|m rest IH]; [done|].
  rewrite tokensIn_cons, filter_cons. case_decide as Hm.
  - rewrite Hm. set_solver.
  - intros Hfresh. apply IH. destruct (tokenOf m); set_solver.
Qed.

Lemma representatives_snoc (seen : gset symbol) (p : list Mapping)
    (m : Mapping) :
  representatives seen (p ++ [m])
  = representatives seen p
    ++ match tokenOf m with
       | None => [m]
       | Some token =>
           if decide (token ∈ seen ∪ tokensIn p) then [] else [m]
       end.
Proof.
  revert seen. induction p as [|h p IH]; intros seen; simpl.
  - destruct (tokenOf m) as [t|]; [|done].
    repeat case_decide; try done; set_solver.
  - rewrite tokensIn_cons. destruct (tokenOf h) as [u|].
    + case_decide as Hu.
      * rewrite IH. f_equal. destruct (tokenOf m) as [t|]; [|done].
        repeat case_decide; try done; set_solver.
      * simpl. rewrite IH. do 2 f_equal. destruct (tokenOf m) as [t|]; [|done].
        repeat case_decide; try done; set_solver.
    + simpl. by rewrite IH.
Qed.

Lemma representatives_token (seen : gset symbol) (p : list Mapping)
    (r : Mapping) (token : symbol) :
  r ∈ representatives seen p → tokenOf r = Some token →
  token ∈ tokensIn p ∧ token ∉ seen.
Proof.
  revert seen. induction p as [|h p IH]; intros seen; simpl.
  - by intros ?%elem_of_nil.
  - rewrite tokensIn_cons. destruct (tokenOf h) as [u|] eqn:Hh.
    + case_decide as Hu.
      * intros Hr Ht. destruct (IH _ Hr Ht). set_solver.
      * intros [-> | Hr]%elem_of_cons Ht.
        -- rewrite Hh in Ht. injection Ht as ->. set_solver.
        -- destruct (IH _ Hr Ht). set_solver.
    + intros [-> | Hr]%elem_of_cons Ht; [congruence|]. by apply IH.
Qed.

Lemma occurrences_snoc (token : symbol) (p : list Mapping) (m : Mapping) :
  occurrences token (p ++ [m])
  = occurrences token p ++ if decide (tokenOf m = Some token) then [m] else [].
Proof.
  by rewrite occurrences_app.
Qed.

Lemma fused_snoc_other (p : list Mapping) (m r : Mapping) :
  tokenOf r ≠ tokenOf m ∨ tokenOf m = None →
  fused (p ++ [m]) r = fused p r.
Proof.
  intros H. unfold fused. destruct (tokenOf r) as [u|] eqn:Hr; [|done].
  rewrite occurrences_snoc.
  case_decide as Hm; [|by rewrite app_nil_r].
  destruct H; congruence.
Qed.

Lemma fused_snoc_same (p : list Mapping) (m r : Mapping) (token : symbol) :
  tokenOf r = Some token → tokenOf m = Some token →
  fused (p ++ [m]) r = pushOnto m (fused p r).
Proof.
  intros Hr Hm. unfold fused. rewrite Hr, occurrences_snoc.
  case_decide; [|done].
  unfold merged, pushOnto. simpl.
  rewrite !map_app, !concat_app. simpl. by rewrite !app_nil_r.
Qed.

Lemma fused_first (p : list Mapping) (m : Mapping) (token : symbol) :
  tokenOf m = Some token → token ∉ tokensIn p →
  fused (p ++ [m]) m = m.
Proof.
  intros Hm Hfresh. unfold fused. rewrite Hm, occurrences_snoc.
  rewrite (occurrences_fresh _ _ Hfresh).
  case_decide; [|done].
  destruct m. unfold merged. simpl. by rewrite !app_nil_r.
Qed.

Lemma representatives_complete (seen : gset symbol) (p : list Mapping)
    (token : symbol) :
  token ∈ tokensIn p → token ∉ seen →
  ∃ r, r ∈ representatives seen p ∧ tokenOf r = Some token.
Proof.
  revert seen. induction p as [|h p IH]; intros seen; simpl.
  - unfold tokensIn. simpl. set_solver.
  - rewrite tokensIn_cons. destruct (tokenOf h) as [u|] eqn:Hh.
    + intros Hin Hseen. destruct (decide (token = u)) as [->|Hne].
      * case_decide; [done|]. exists h. split; [left | done].
      * assert (token ∈ tokensIn p) as Hp by set_solver.
        case_decide.
        -- apply IH; done.
        -- destruct (IH ({[u]} ∪ seen) Hp) as (r & Hr & Ht); [set_solver|].
           exists r. split; [by right | done].
    + intros Hin Hseen. destruct (IH seen Hin Hseen) as (r & Hr & Ht).
      exists r. split; [by right | done].
Qed.

Lemma compacted_length (p : list Mapping) :
  List.length (compacted p) = List.length (representatives ∅ p).
Proof. unfold compacted. by rewrite length_map. Qed.

Lemma combined_initial : combined [] {| mappings := []; tokens := ∅ |}.
Proof.
  split; [done|]. intros token i. simpl. rewrite lookup_empty.
  split; [done|]. by intros (r & Hr & _).
Qed.

Lemma combined_step (p : list Mapping) (st : Combine) (m : Mapping) :
  combined p st → combined (p ++ [m]) (combine st m).
Proof.
  intros [Hmap Htok]. unfold combine, combined, compacted.
  rewrite representatives_snoc.
  change (__combineToken (data m)) with (tokenOf m).
  destruct (tokenOf m) as [t|] eqn:Hm.
  - destruct (tokens st !! t) as [i|] eqn:Hi.
    + destruct (proj1 (Htok t i) Hi) as (r & Hr & Hrt).
      assert (t ∈ tokensIn p) as Hin.
      { eapply representatives_token; [|done].
        apply list_elem_of_lookup. by exists i. }
      case_decide; [|set_solver]. rewrite app_nil_r. simpl.
      split; [|done]. rewrite Hmap. unfold compacted.
      apply list_eq. intros j.
      rewrite list_lookup_alter, !list_lookup_fmap.
      case_decide as Hij.
      * subst j. rewrite Hr. simpl. f_equal. symmetry.
        by apply (fused_snoc_same p m r t).
      * destruct (representatives ∅ p !! j) as [r'|] eqn:Hj; [|done].
        simpl. f_equal. symmetry. apply fused_snoc_other. left.
        rewrite Hm. intros Hr't. apply Hij.
        assert (tokens st !! t = Some j) as Hj' by (apply Htok; eauto).
        congruence.
    + assert (t ∉ tokensIn p) as Hfresh.
      { intros Hin.
        destruct (representatives_complete ∅ p t Hin) as (r & Hr & Hrt);
          [set_solver|].
        apply list_elem_of_lookup in Hr as [i Hr].
        assert (tokens st !! t = Some i) by (apply Htok; eauto).
        congruence. }
      case_decide; [set_solver|]. simpl.
      assert (∀ r, r ∈ representatives ∅ p → fused (p ++ [m]) r = fused p r)
        as Hsame.
      { intros r Hr. apply fused_snoc_other. left. rewrite Hm. intros Hrt.
        by destruct (representatives_token ∅ p r t Hr Hrt). }
      split.
      * rewrite map_app. simpl. rewrite (fused_first p m t Hm Hfresh), Hmap.
        unfold compacted. f_equal.
        apply map_ext_in. intros r Hr. symmetry. apply Hsame.
        by apply list_elem_of_In.
      * intros u j. rewrite Hmap, compacted_length.
        destruct (decide (u = t)) as [->|Hne].
        -- rewrite lookup_insert_eq. split.
           ++ intros [= <-]. exists m. split; [|done].
              by rewrite list_lookup_middle.
           ++ intros (r & Hr & Hrt). f_equal.
              apply lookup_app_Some in Hr as [Hr | [Hge Hr]].
              ** exfalso. apply Hfresh.
                 eapply representatives_token; [|exact Hrt].
                 apply list_elem_of_lookup. eauto.
              ** apply list_lookup_singleton_Some in Hr as [Hz _]. lia.
        -- rewrite lookup_insert_ne by done. rewrite Htok.
           split; intros (r & Hr & Hrt); exists r; (split; [|done]).
           ++ by apply lookup_app_l_Some.
           ++ apply lookup_app_Some in Hr as [Hr | [Hge Hr]]; [done|].
              apply list_lookup_singleton_Some in Hr as [_ <-]. congruence.
  - simpl. split.
    + rewrite map_app. simpl. rewrite Hmap. unfold compacted. f_equal.
      * apply map_ext_in. intros r _. symmetry. apply fused_snoc_other.
        by right.
      * unfold fused. by rewrite Hm.
    + intros u j. rewrite Htok.
      split; intros (r & Hr & Hrt); exists r; (split; [|done]).
      * by apply lookup_app_l_Some.
      * apply lookup_app_Some in Hr as [Hr | [Hge Hr]]; [done|].
        apply list_lookup_singleton_Some in Hr as [_ <-]. congruence.
Qed.

Lemma combined_fold (q p : list Mapping) (st : Combine) :
  combined p st → combined (p ++ q) (fold_left combine q st).
Proof.
  revert p st. induction q as [|m q IH]; intros p st H; simpl.
  - by rewrite app_nil_r.
  - replace (p ++ m :: q) with ((p ++ [m]) ++ q) by by rewrite <-app_assoc.
    apply IH. by apply combined_step.
Qed.

(** The second loop of [createMappings] computes the map of section 4.2. *)
Lemma combineAll_compacted (original : list Mapping) :
  combineAll original = compacted original.
Proof.
  unfold combineAll.
  by destruct (combined_fold original [] _ combined_initial) as [-> _].
Qed.

(** ** Shape of the compacted map *)

Lemma tokenOf_fused (original : list Mapping) (r : Mapping) :
  tokenOf (fused original r) = tokenOf r.
Proof. unfold fused. by destruct (tokenOf r) eqn:H. Qed.

Lemma occurrences_map_fused (original l : list Mapping) (token : symbol) :
  occurrences token (map (fused original) l)
  = map (fused original) (occurrences token l).
Proof.
  unfold occurrences. induction l as [|r l IH]; [done|]. simpl.
  rewrite !filter_cons, tokenOf_fused. case_decide; simpl; by rewrite IH.
Qed.


Lemma occurrences_representatives (seen : gset symbol)
    (original : list Mapping) (token : symbol) :
  occurrences token (representatives seen original)
  = if decide (token ∈ seen) then []
    else option_list (head (occurrences token original)).
Proof.
  unfold occurrences. revert seen.
  induction original as [|m rest IH]; intros seen; simpl.
  - by case_decide.
  - rewrite (filter_cons _ m rest).
    destruct (tokenOf m) as [u|] eqn:Hm.
    + destruct (decide (u = token)) as [->|Hne].
      * rewrite (decide_True (P := Some token = Some token)) by done.
        destruct (decide (token ∈ seen)) as [Hu|Hu]; [by rewrite IH, decide_True|].
        rewrite filter_cons, Hm, decide_True by done.
        rewrite IH, decide_True by set_solver. done.
      * rewrite (decide_False (P := Some u = Some token)) by congruence.
        destruct (decide (u ∈ seen)) as [Hu|Hu]; [by rewrite IH|].
        rewrite filter_cons, Hm, decide_False by congruence.
        rewrite IH. destruct (decide (token ∈ seen)).
        -- by rewrite decide_True by set_solver.
        -- by rewrite decide_False by set_solver.
    + rewrite filter_cons, Hm, IH.
      rewrite !(decide_False (P := None = Some token)) by done. done.
Qed.


Lemma representatives_subset (seen : gset symbol) (original : list Mapping)
    (r : Mapping) :
  r ∈ representatives seen original → r ∈ original.
Proof.
  revert seen. induction original as [|m rest IH]; intros seen; simpl; [done|].
  destruct (tokenOf m); [case_decide|]; set_solver.
Qed.


(** The first loop, fragment by fragment. *)


Lemma occurrences_cons (token : symbol) (m : Mapping) (rest : list Mapping) :
  occurrences token (m :: rest)
  = if decide (tokenOf m = Some token) then m :: occurrences token rest
    else occurrences token rest.
Proof. unfold occurrences. by rewrite filter_cons. Qed.

Lemma fragmentsWith_text (token : symbol) (text : string) (codes : list Code) :
  fragmentsWith token (Text text :: codes) = fragmentsWith token codes.
Proof. unfold fragmentsWith. by rewrite filter_cons, decide_False. Qed.

Lemma fragmentsWith_mapped (token : symbol) (text : string)
    (source : option string) (offset : Z) (d : CodeInformation)
    (codes : list Code) :
  fragmentsWith token (Mapped text source offset d :: codes)
  = if decide (__combineToken d = Some token)
    then Mapped text source offset d :: fragmentsWith token codes
    else fragmentsWith token codes.
Proof. unfold fragmentsWith. by rewrite filter_cons. Qed.

Lemma occurrences_original (token : symbol) (length : Z) (codes : list Code) :
  concat (map sourceOffsets (occurrences token (originalMappings length codes)))
  = omap Boundary.offsetOf (fragmentsWith token codes)
  ∧ concat (map lengths (occurrences token (originalMappings length codes)))
    = map (fun code => JS.length (Boundary.textOf code))
          (fragmentsWith token codes)
  ∧ map data (occurrences token (originalMappings length codes))
    = omap Boundary.dataOf (fragmentsWith token codes)
  ∧ List.length
      (concat (map generatedOffsets
                   (occurrences token (originalMappings length codes))))
    = List.length (fragmentsWith token codes).
Proof.
  revert length. induction codes as [|c codes IH]; intros length; [done|].
  destruct c as [text | text source offset d]; simpl.
  - rewrite fragmentsWith_text. apply IH.
  - rewrite occurrences_cons, fragmentsWith_mapped.
    destruct (IH (length + JS.length text)) as (H1 & H2 & H3 & H4).
    destruct (decide (__combineToken d = Some token)) as [Hd|Hd].
    + rewrite decide_True by exact Hd. simpl.
      by rewrite H1, H2, H3, H4.
    + rewrite decide_False by exact Hd. done.
Qed.

Lemma tokensIn_original (token : symbol) (length : Z) (codes : list Code) :
  fragmentsWith token codes = [] →
  token ∉ tokensIn (originalMappings length codes).
Proof.
  revert length. induction codes as [|c codes IH]; intros length.
  - intros _. unfold tokensIn. simpl. set_solver.
  - destruct c as [text | text source offset d]; simpl.
    + rewrite fragmentsWith_text. apply IH.
    + rewrite fragmentsWith_mapped, tokensIn_cons. unfold tokenOf at 1. simpl.
      case_decide as Hd; [done|]. intros Hnil.
      specialize (IH (length + JS.length text) Hnil).
      destruct (__combineToken d) as [u|]; [|done].
      assert (u ≠ token) by congruence. set_solver.
Qed.



(** ** Generated offsets of an entry *)

Lemma original_generated_sorted (token : symbol) (length : Z)
    (codes : list Code) :
  StronglySorted Z.le
    (concat (map generatedOffsets
                 (occurrences token (originalMappings length codes))))
  ∧ Forall (Z.le length)
      (concat (map generatedOffsets
                   (occurrences token (originalMappings length codes)))).
Proof.
  revert length. induction codes as [|c codes IH]; intros length; simpl.
  - split; constructor.
  - destruct c as [text | text source offset d].
    + destruct (IH (length + JS.length text)) as [Hs Hf]. split; [done|].
      eapply Forall_impl; [exact Hf|]. intros g Hg. simpl in Hg.
      unfold JS.length in Hg. lia.
    + rewrite occurrences_cons.
      destruct (IH (length + JS.length text)) as [Hs Hf].
      assert (Forall (Z.le length)
                (concat (map generatedOffsets
                   (occurrences token
                      (originalMappings (length + JS.length text) codes)))))
        as Hf'.
      { eapply Forall_impl; [exact Hf|]. intros g Hg. simpl in Hg.
        unfold JS.length in Hg. lia. }
      case_decide; [|done]. simpl. split.
      * by constructor.
      * constructor; [lia | done].
Qed.

Lemma original_generated_single (length : Z) (codes : list Code)
    (m : Mapping) :
  m ∈ originalMappings length codes → ∃ g, generatedOffsets m = [g].
Proof.
  revert length. induction codes as [|c codes IH]; intros length; simpl.
  - by intros ?%elem_of_nil.
  - destruct c as [text | text source offset d]; [apply IH|].
    intros [-> | Hm]%elem_of_cons; [by eexists | by eapply IH].
Qed.

(** C9. Offset monotonicity: in every entry that [createMappings] produces,
    combined or not, the array [generatedOffsets] is non-decreasing. *)
Theorem offset_monotonicity (codes : list Code) :
  Forall (fun entry => StronglySorted Z.le (generatedOffsets entry))
         (createMappings codes).
Proof.
  unfold createMappings. rewrite combineAll_compacted. unfold compacted.
  apply Forall_forall. intros entry Hentry.
  apply list_elem_of_fmap in Hentry as (r & -> & Hr).
  unfold fused. destruct (tokenOf r) as [token|] eqn:Hrt.
  - apply original_generated_sorted.
  - apply representatives_subset, original_generated_single in Hr as [g ->].
    repeat constructor.
Qed.

(** ** The metadata of a combined entry *)

Lemma data_fused (original : list Mapping) (r : Mapping) :
  data (fused original r) = data r.
Proof. unfold fused. by destruct (tokenOf r). Qed.

Lemma fragmentsWith_head (token : symbol) (codes : list Code) (c : Code) :
  head (fragmentsWith token codes) = Some c →
  ∃ d, Boundary.dataOf c = Some d ∧ __combineToken d = Some token.
Proof.
  intros Hc. assert (c ∈ fragmentsWith token codes) as Hin.
  { destruct (fragmentsWith token codes); [done|].
    injection Hc as ->. left. }
  unfold fragmentsWith in Hin. apply list_elem_of_filter in Hin as [Hin _].
  destruct c as [text | text source offset d]; [done|]. by exists d.
Qed.

Lemma forgetLater_fold (codes : list Code) (length : Z) (st : Combine)
    (seen : gset symbol) :
  (∀ token, token ∈ seen ↔ is_Some (tokens st !! token)) →
  fold_left combine (originalMappings length (forgetLater seen codes)) st
  = fold_left combine (originalMappings length codes) st.
Proof.
  revert length st seen.
  induction codes as [|c codes IH]; intros length st seen Hseen; [done|].
  destruct c as [text | text source offset d]; simpl.
  - by apply IH.
  - destruct (__combineToken d) as [token|] eqn:Hd.
    + case_decide as Hin.
      * simpl. destruct (proj1 (Hseen token) Hin) as [i Hi].
        unfold combine at 2 4. simpl. rewrite Hd, Hi. by apply IH.
      * simpl. apply IH.
        assert (tokens st !! token = None) as Hnone.
        { apply eq_None_not_Some. by rewrite <-Hseen. }
        unfold combine. simpl. rewrite Hd, Hnone. simpl.
        intros u. rewrite elem_of_union, elem_of_singleton, Hseen.
        destruct (decide (token = u)) as [->|Hne].
        -- rewrite lookup_insert_eq. split; [by eexists | by left].
        -- rewrite lookup_insert_ne by done. split; [|by right].
           by intros [->|].
    + simpl. apply IH. unfold combine. simpl. by rewrite Hd.
Qed.

(** C10. Representative metadata: the [data] of every entry of
    [createMappings] that carries a combine token is the [data] of the first
    fragment that carries the token; what the later fragments with the same
    token carry besides the token is discarded: replacing it by a bare
    token changes neither the position map nor, hence, the answer of any
    backward query over it. *)
Theorem representative_metadata (codes : list Code) :
  Forall (fun entry =>
            match tokenOf entry with
            | Some token =>
                head (fragmentsWith token codes) ≫= Boundary.dataOf
                = Some (data entry)
            | None => True
            end)
         (createMappings codes)
  ∧ createMappings (forgetLater ∅ codes) = createMappings codes
  ∧ ∀ generatedOffset filter,
      SourceMap.toSourceLocation (createMappings (forgetLater ∅ codes))
        generatedOffset filter
      = SourceMap.toSourceLocation (createMappings codes)
          generatedOffset filter.
Proof.
  assert (createMappings (forgetLater ∅ codes) = createMappings codes) as Hsame.
  { unfold createMappings, combineAll. f_equal. apply forgetLater_fold.
    intros token. simpl. rewrite lookup_empty. split; [set_solver|].
    by intros [? ?]. }
  split; [|split; [done | intros; by rewrite Hsame]].
  unfold createMappings. rewrite combineAll_compacted.
  apply Forall_forall. intros entry Hentry. unfold compacted in Hentry.
  apply list_elem_of_fmap in Hentry as (r & -> & Hr).
  rewrite tokenOf_fused, data_fused.
  destruct (tokenOf r) as [token|] eqn:Hrt; [|done].
  assert (r ∈ occurrences token (representatives ∅ (originalMappings 0 codes)))
    as Hocc by by apply list_elem_of_filter.
  rewrite occurrences_representatives, decide_False in Hocc by set_solver.
  destruct (occurrences_original token 0 codes) as (_ & _ & Hd & _).
  destruct (occurrences token (originalMappings 0 codes)) as [|r' others];
    [by apply elem_of_nil in Hocc|].
  simpl in Hocc. apply list_elem_of_singleton in Hocc as ->.
  destruct (fragmentsWith token codes) as [|c cs] eqn:Hfr; [done|].
  destruct (fragmentsWith_head token codes c) as (d & Hc & _);
    [by rewrite Hfr|].
  simpl in *. rewrite Hc in *. by injection Hd as -> _.
Qed.

(** ** Boundaries *)

Import Project Report.

(** C3, as amended. For every open-form call of [generateBoundary] with
    metadata [m], the opening fragment is zero-length, sits at [start] and
    carries [m] with the freshly minted token; the closer, given an end
    offset, produces a zero-length fragment at that offset with the same
    source and the same token, and with no other metadata: the verification
    policy of [m] is not copied onto it. *)
Theorem closer_fragment (source : string) (start : Z) (m : CodeInformation)
    (fresh : symbol) (offset : Z) :
  ∃ handle,
    Boundary.returned
      (Boundary.generateBoundary source start (Boundary.Open m) fresh)
    = Some handle
    ∧ Boundary.token handle = fresh
    ∧ Boundary.yielded
        (Boundary.generateBoundary source start (Boundary.Open m) fresh)
      = [Mapped "" (Some source) start
           {| verification := verification m;
              __combineToken := Some (Boundary.token handle) |}]
    ∧ Boundary.end_ handle offset
      = Mapped "" (Some source) offset
          {| verification := VerificationAbsent;
             __combineToken := Some (Boundary.token handle) |}
    ∧ JS.length (Boundary.textOf (Boundary.end_ handle offset)) = 0.
Proof. eexists. repeat split. Qed.

(** C3, as stated, fails: the closing fragment of a boundary opened with
    [codeFeatures.verification] does not carry that verification policy. *)
Lemma closer_drops_metadata :
  ¬ closerKeepsMetadata "template" 4 codeFeatures.verification 1%nat 9.
Proof.
  unfold closerKeepsMetadata. simpl. intros (d & [= <-] & _ & Hv).
  discriminate Hv.
Qed.

(** The wrapping form closes in the same way. *)
Lemma wrap_closing_fragment (source : string) (start end_ : Z)
    (m : CodeInformation) (codes : list Code) (fresh : symbol) :
  last (Boundary.yielded
          (Boundary.generateBoundary source start
             (Boundary.Wrap end_ m codes) fresh))
  = Some (Mapped "" (Some source) end_ (Boundary.onlyToken fresh)).
Proof.
  unfold Boundary.generateBoundary. cbn [Boundary.yielded].
  rewrite app_assoc. apply last_snoc.
Qed.

(** ** isVerificationEnabled *)

Lemma isVerificationEnabled_true (data : CodeInformation) (code : Z) :
  isVerificationEnabled data code = true
  ↔ verification data = VerificationBool true
    ∨ ∃ shouldReport,
        verification data = VerificationObject (Some shouldReport)
        ∧ shouldReport (JS.VNumber code) JS.VUndefined = true.
Proof.
  unfold isVerificationEnabled.
  destruct (verification data) as [|[]|[f|]]; naive_solver.
Qed.

(** The policy [doNotReportTs2339AndTs2551] reads the code from its second
    parameter, which [isVerificationEnabled] leaves undefined: no code is
    ever suppressed. *)
Lemma doNotReportTs2339AndTs2551_always (code : Z) :
  isVerificationEnabled codeFeatures.doNotReportTs2339AndTs2551 code = true.
Proof. reflexivity. Qed.

(** C1, at the failing input. The policy [doNotReportTs2339AndTs2551]
    rejects the code 2339 when it is called with the code as its second
    argument, yet [isVerificationEnabled] holds for an entry with that
    policy and the code 2339, and the backward query filtered by it yields
    the entry's source offset instead of nothing. *)
Theorem suppression_filtering_2339 :
  (∃ shouldReport,
     verification (data Sample.suppressed)
     = VerificationObject (Some shouldReport)
     ∧ shouldReport JS.VUndefined (JS.VNumber 2339) = false)
  ∧ isVerificationEnabled (data Sample.suppressed) 2339 = true
  ∧ SourceMap.toSourceLocation [Sample.suppressed] (JS.Num 12)
      (fun data => isVerificationEnabled data 2339)
    = [(10, Sample.suppressed)].
Proof.
  split; [|split]; [|reflexivity|reflexivity].
  eexists. split; [reflexivity|]. reflexivity.
Qed.

(** ** The remap loop *)

Lemma remap_None (sourceFile : SourceFile) (diagnostic : Diagnostic) :
  let accept := fun data => isVerificationEnabled data (code diagnostic) in
  let left := firstOffset (SourceMap.toSourceLocation (mapper sourceFile)
                (getVirtualOffset sourceFile (line (start diagnostic))
                   (column (start diagnostic))) accept) in
  let right := firstOffset (SourceMap.toSourceLocation (mapper sourceFile)
                 (getVirtualOffset sourceFile (line (end_ diagnostic))
                    (column (end_ diagnostic))) accept) in
  remap sourceFile diagnostic = None
  ↔ left = None ∨ left = Some 0 ∨ right = None ∨ right = Some 0.
Proof.
  intros accept left right. unfold remap. fold accept. fold left right.
  destruct left as [l|], right as [r|]; simpl;
    repeat match goal with
           | |- context [?z =? 0] => destruct (Z.eqb_spec z 0)
           end; simpl; naive_solver.
Qed.

Lemma remap_Some (sourceFile : SourceFile) (diagnostic : Diagnostic)
    (l r : Z) :
  let accept := fun data => isVerificationEnabled data (code diagnostic) in
  firstOffset (SourceMap.toSourceLocation (mapper sourceFile)
     (getVirtualOffset sourceFile (line (start diagnostic))
        (column (start diagnostic))) accept) = Some l →
  firstOffset (SourceMap.toSourceLocation (mapper sourceFile)
     (getVirtualOffset sourceFile (line (end_ diagnostic))
        (column (end_ diagnostic))) accept) = Some r →
  l ≠ 0 → r ≠ 0 →
  remap sourceFile diagnostic
  = Some {| path := path diagnostic;
            start := getSourceLineAndColumn sourceFile l;
            end_ := getSourceLineAndColumn sourceFile r;
            code := code diagnostic;
            message := message diagnostic |}.
Proof.
  intros accept Hl Hr Hl0 Hr0. unfold remap. fold accept. rewrite Hl, Hr.
  simpl. destruct (Z.eqb_spec l 0), (Z.eqb_spec r 0); done.
Qed.

(** C2, at the failing input. For a known file whose position map sends
    generated offset 0 to source offset 0 in a verified region, both
    backward queries of a diagnostic at line 1, column 1 yield the accepted
    source offset 0, yet the diagnostic is discarded: the group is rendered
    under the original path with no diagnostic left. *)
Theorem diagnostic_at_offset_zero :
  let accept := fun data =>
    isVerificationEnabled data (code Sample.atFirstCharacter) in
  firstOffset (SourceMap.toSourceLocation (mapper Sample.fromOffsetZero)
     (getVirtualOffset Sample.fromOffsetZero 1 1) accept) = Some 0
  ∧ remap Sample.fromOffsetZero Sample.atFirstCharacter = None
  ∧ checkGroup {["/cache/a.vue.ts" := Sample.fromOffsetZero]}
      "/cache" "/project" ("/cache/a.vue.ts", [Sample.atFirstCharacter])
    = ("/project/a.vue", []).
Proof. split; [|split]; reflexivity. Qed.

(** ** The parsing loop *)

Section Parsing.

Variable resolve : string -> string.

Lemma shape_Underline (cursor : Z) (text : string) :
  shape cursor text = Underline
  ↔ diagnosticRE text = None
    ∧ Z.rem cursor 2 = 1
    ∧ JS.includes "~" text = true.
Proof.
  unfold shape. destruct (diagnosticRE text); [naive_solver|].
  destruct (Z.eqb_spec (Z.rem cursor 2) 0) as [H0|H0],
           (Z.eqb_spec (Z.rem cursor 2) 1) as [H1|H1],
           (JS.length text =? 0), (JS.includes "~" text);
    simpl; split; try done; try naive_solver; lia.
Qed.

Lemma parseLines_app (st : Parser) (l1 l2 : list string) :
  parseLines resolve st (l1 ++ l2)
  = match parseLines resolve st l1 with
    | JS.Ok st' => parseLines resolve st' l2
    | JS.Throw error => JS.Throw error
    end.
Proof.
  revert st. induction l1 as [|text l1 IH]; intros st; simpl; [done|].
  by destruct (parseLine resolve st text).
Qed.

(** The gutter width and the line counter along a run of the loop. *)
Lemma parseLines_padding (lines : list string) (st st' : Parser)
    (current : option string) :
  padding st = gutter current →
  parseLines resolve st lines = JS.Ok st' →
  padding st' = gutter (lastSnippet (cursor st) current lines).
Proof.
  revert st current. induction lines as [|text rest IH]; intros st current Hp.
  - simpl. by intros [= <-].
  - simpl. unfold parseLine.
    destruct (shape (cursor st) text) eqn:Hshape.
    + intros H. by apply (IH _ current) in H.
    + intros H. by apply (IH _ (Some text)) in H.
    + destruct (last (diagnostics st)); [|done].
      intros H. by apply (IH _ current) in H.
    + intros H. by apply (IH _ current) in H.
Qed.

Lemma parseLines_cursor (lines : list string) (st st' : Parser) :
  0 <= cursor st →
  parseLines resolve st lines = JS.Ok st' →
  0 <= cursor st'.
Proof.
  revert st. induction lines as [|text rest IH]; intros st Hc.
  - simpl. by intros [= <-].
  - simpl. unfold parseLine.
    destruct (shape (cursor st) text) eqn:Hshape.
    + apply IH. simpl. lia.
    + apply IH. simpl. lia.
    + destruct (last (diagnostics st)); [|done]. apply IH. simpl. lia.
    + apply IH. simpl. lia.
Qed.

(** C5. Parser end-position formula: when, after the lines read so far,
    the last diagnostic is [d] and the next line is an underline line (no
    header, odd line counter [cursor], a tilde in it), the loop sets the end
    of [d], and of no other diagnostic, to line
    [startLine + (cursor - 3) / 2], the division being exact, and column
    [index of the last tilde + 1 - padding], where [padding] is the length
    of the most recent snippet line up to its first space.  The stored
    diagnostic is written out field by field: its [end_] is that position,
    its path, start, code and message are those of [d]. *)
Theorem end_position_formula (lines : list string) (st : Parser)
    (others : list Diagnostic) (d : Diagnostic) (underline : string) :
  parseLines resolve initial lines = JS.Ok st →
  diagnostics st = others ++ [d] →
  diagnosticRE underline = None →
  Z.rem (cursor st) 2 = 1 →
  JS.includes "~" underline = true →
  parseLines resolve initial (lines ++ [underline])
  = JS.Ok {| diagnostics :=
               others
               ++ [{| path := path d;
                      start := start d;
                      end_ :=
                        {| line := line (start d) + (cursor st - 3) / 2;
                           column := JS.lastIndexOf "~" underline + 1
                                     - gutter (lastSnippet 0 None lines) |};
                      code := code d;
                      message := message d |}];
             cursor := cursor st + 1;
             padding := padding st |}
  ∧ 2 * ((cursor st - 3) / 2) = cursor st - 3.
Proof.
  intros Hrun Hd Hre Hodd Htilde.
  pose proof (parseLines_padding lines initial st None eq_refl Hrun) as Hpad.
  pose proof (parseLines_cursor lines initial st ltac:(done) Hrun) as Hcur.
  simpl in Hpad, Hcur. split.
  - rewrite parseLines_app, Hrun. simpl. unfold parseLine.
    rewrite (proj2 (shape_Underline _ _)) by done.
    rewrite Hd, last_snoc, length_app. simpl.
    replace (pred (List.length others + 1)) with (List.length others + 0)%nat
      by lia.
    rewrite alter_app_r. unfold setEnd. simpl. by rewrite Hpad.
  - rewrite Z.rem_mod_nonneg in Hodd by lia.
    pose proof (Z.div_mod (cursor st - 3) 2 ltac:(lia)) as Hdm.
    replace ((cursor st - 3) mod 2) with 0 in Hdm; [lia|].
    symmetry. rewrite Zminus_mod, Hodd. reflexivity.
Qed.

(** A line of no expected shape only advances the line counter. *)
Lemma noise_ignored (st : Parser) (text : string) :
  shape (cursor st) text = Noise →
  parseLine resolve st text
  = JS.Ok {| diagnostics := diagnostics st;
             cursor := cursor st + 1;
             padding := padding st |}.
Proof. intros H. unfold parseLine. by rewrite H. Qed.

(** A run that already holds a diagnostic cannot throw; it keeps the
    diagnostics that are not the last one. *)
Lemma parseLine_nonempty (st : Parser) (text : string) :
  diagnostics st ≠ [] →
  ∃ st', parseLine resolve st text = JS.Ok st'
         ∧ (List.length (diagnostics st) <= List.length (diagnostics st'))%nat
         ∧ ∀ i, (S i < List.length (diagnostics st))%nat →
                diagnostics st' !! i = diagnostics st !! i.
Proof.
  intros Hne. unfold parseLine. destruct (shape (cursor st) text).
  - eexists. split; [done|]. simpl. rewrite length_app. split; [lia|].
    intros i Hi. apply lookup_app_l. lia.
  - eexists. split; [done|]. simpl. split; [lia | done].
  - destruct (last (diagnostics st)) as [d|] eqn:Hlast.
    + eexists. split; [done|]. simpl. rewrite length_alter. split; [lia|].
      intros i Hi. apply list_lookup_alter_ne. lia.
    + apply last_None in Hlast. done.
  - eexists. split; [done|]. simpl. split; [lia | done].
Qed.

Lemma parseLines_frozen (lines : list string) (st : Parser) (k : nat)
    (d : Diagnostic) :
  (S k < List.length (diagnostics st))%nat →
  diagnostics st !! k = Some d →
  ∃ st', parseLines resolve st lines = JS.Ok st'
         ∧ diagnostics st' !! k = Some d.
Proof.
  revert st. induction lines as [|text rest IH]; intros st Hk Hd; simpl.
  - by exists st.
  - destruct (parseLine_nonempty st text) as (st1 & -> & Hlen & Hsame).
    { intros Hnil. rewrite Hnil in Hk. simpl in Hk. lia. }
    apply IH; [lia|]. by rewrite Hsame.
Qed.

Lemma parseLines_unset (lines : list string) (st : Parser) (k : nat)
    (d : Diagnostic) :
  List.length (diagnostics st) = S k →
  diagnostics st !! k = Some d →
  noUnderline (cursor st) lines = true →
  ∃ st', parseLines resolve st lines = JS.Ok st'
         ∧ diagnostics st' !! k = Some d.
Proof.
  revert st. induction lines as [|text rest IH]; intros st Hk Hd Hno; simpl.
  - by exists st.
  - simpl in Hno. unfold parseLine.
    destruct (shape (cursor st) text) eqn:Hshape; [| |done|].
    + apply parseLines_frozen; simpl.
      * rewrite length_app. simpl. lia.
      * rewrite lookup_app_l; [done|]. lia.
    + by apply IH.
    + by apply IH.
Qed.

End Parsing.

(** C6, at the failing input. On a report whose second line holds a tilde
    and whose first line is no diagnostic header, [parseDiagnostics] does
    not return: the underline branch reads the last diagnostic of an empty
    array and a [TypeError] is thrown. *)
Theorem tilde_before_header_throws (resolve : string -> string) :
  diagnosticRE "warning: slow" = None
  ∧ diagnosticRE "in ~/project" = None
  ∧ parseDiagnostics resolve Sample.earlyTilde
    = JS.Throw
        "TypeError: Cannot read properties of undefined (reading 'start')".
Proof. split; [|split]; reflexivity. Qed.

(** ** Diagnostics without an underline *)

Lemma remapAll_app (sourceFile : SourceFile) (l1 l2 : list Diagnostic) :
  remapAll sourceFile (l1 ++ l2)
  = remapAll sourceFile l1 ++ remapAll sourceFile l2.
Proof.
  induction l1 as [|d l1 IH]; simpl; [done|].
  destruct (remap sourceFile d); simpl; by rewrite IH.
Qed.

Lemma createOffsetGetter_unset (text : string) :
  createOffsetGetter text (line unset) (column unset) = JS.NaN.
Proof. reflexivity. Qed.

Lemma remap_unset (sourceFile : SourceFile) (text : string) (d : Diagnostic) :
  getVirtualOffset sourceFile = createOffsetGetter text →
  end_ d = unset →
  remap sourceFile d = None.
Proof.
  intros Hget Hend. unfold remap. rewrite Hget, Hend, createOffsetGetter_unset.
  simpl. by rewrite orb_true_r.
Qed.

(** C7. Malformed-underline discard path: when no line after a diagnostic
    header, up to the next header, is read as an underline, the parsed
    diagnostic keeps its end at the unset position (line 0, column 0); and in
    the remap loop of a known file, whose offset getter was built by
    [createOffsetGetter], that diagnostic is spliced out: the loop's result
    is the one it gives without it. *)
Theorem malformed_underline_discarded (resolve : string -> string)
    (stdout : string) (before : list string) (st0 : Parser) (header : string)
    (groups : Groups) (after : list string) :
  JS.split "010" (JS.trim stdout) = before ++ header :: after →
  parseLines resolve initial before = JS.Ok st0 →
  diagnosticRE header = Some groups →
  noUnderline 1 after = true →
  ∃ st d,
    parseLines resolve initial (before ++ header :: after) = JS.Ok st
    ∧ parseDiagnostics resolve stdout
      = JS.Ok (fold_left addToGroup (diagnostics st) [])
    ∧ diagnostics st !! List.length (diagnostics st0) = Some d
    ∧ d = {| path := resolve (g_path groups);
             start := {| line := JS.Number_ (g_line groups);
                         column := JS.Number_ (g_column groups) |};
             end_ := unset;
             code := JS.Number_ (g_code groups);
             message := g_message groups |}
    ∧ ∀ (sourceFile : SourceFile) (virtualText : string),
        getVirtualOffset sourceFile = createOffsetGetter virtualText →
        remap sourceFile d = None
        ∧ ∀ l1 l2, remapAll sourceFile (l1 ++ d :: l2)
                   = remapAll sourceFile (l1 ++ l2).
Proof.
  intros Hlines Hbefore Hheader Hafter.
  set (d := {| path := resolve (g_path groups);
               start := {| line := JS.Number_ (g_line groups);
                           column := JS.Number_ (g_column groups) |};
               end_ := unset;
               code := JS.Number_ (g_code groups);
               message := g_message groups |}).
  set (st1 := {| diagnostics := diagnostics st0 ++ [d]; cursor := 0 + 1;
                 padding := padding st0 |}).
  assert (parseLine resolve st0 header = JS.Ok st1) as Hstep.
  { unfold parseLine, shape. by rewrite Hheader. }
  destruct (parseLines_unset resolve after st1 (List.length (diagnostics st0)) d)
    as (st & Hrun & Hd).
  { simpl. rewrite length_app. simpl. lia. }
  { simpl. by rewrite list_lookup_middle. }
  { done. }
  assert (parseLines resolve initial (before ++ header :: after) = JS.Ok st)
    as Hall.
  { rewrite parseLines_app, Hbefore. simpl. by rewrite Hstep. }
  exists st, d. split; [done|]. split.
  { unfold parseDiagnostics. by rewrite Hlines, Hall. }
  split; [done|]. split; [done|].
  intros sourceFile virtualText Hget.
  assert (remap sourceFile d = None) as Hnone
    by by apply (remap_unset sourceFile virtualText).
  split; [done|]. intros l1 l2.
  rewrite !remapAll_app. simpl. by rewrite Hnone.
Qed.

(** ** Instances *)

(** Offset 4 of a text of three lines is line 2, column 2, and back. *)
Lemma line_column_round_trip_witness :
  0 <= 4 < JS.length Sample.threeLines
  ∧ createLineAndColumnGetter Sample.threeLines 4
    = {| line := 2; column := 2 |}
  ∧ createOffsetGetter Sample.threeLines 2 2 = JS.Num 4.
Proof.
  split; [vm_compute; split; [discriminate | reflexivity] |].
  split; [reflexivity|].
  apply (line_column_round_trip Sample.threeLines 4).
  vm_compute. split; [discriminate | reflexivity].
Defined.


(** A one-line diagnostic block: the underline is read at line counter 3. *)
Lemma end_position_formula_witness :
  parseLines (fun path => path) initial Sample.blockHead
  = JS.Ok Sample.afterBlockHead
  ∧ parseLines (fun path => path) initial
      (Sample.blockHead ++ [Sample.blockUnderline])
    = JS.Ok {| diagnostics :=
                 [{| path := "/cache/a.vue.ts";
                     start := {| line := 3; column := 13 |};
                     end_ := {| line := 3; column := 14 |};
                     code := 2339;
                     message := "Property 'c' does not exist." |}];
               cursor := 4;
               padding := 1 |}.
Proof.
  split; [reflexivity|].
  apply (end_position_formula (fun path => path) Sample.blockHead
           Sample.afterBlockHead [] Sample.blockDiagnostic
           Sample.blockUnderline); reflexivity.
Defined.

(** A block cut before its underline: parsed with an unset end, then
    dropped by the remap. *)
Lemma malformed_underline_discarded_witness :
  ∃ st,
    parseDiagnostics (fun path => path) Sample.truncated
    = JS.Ok (fold_left addToGroup (diagnostics st) [])
    ∧ diagnostics st !! 0%nat = Some Sample.blockDiagnostic
    ∧ remap Sample.fromOffsetZero Sample.blockDiagnostic = None.
Proof.
  destruct (malformed_underline_discarded (fun path => path) Sample.truncated
              [] initial
              "/cache/a.vue.ts:3:13 - error TS2339: Property 'c' does not exist."
              {| g_path := "/cache/a.vue.ts"; g_line := "3"; g_column := "13";
                 g_code := "2339";
                 g_message := "Property 'c' does not exist." |}
              [""; "3 const x = a.b.c;"])
    as (st & d & _ & Hparse & Hd & -> & Hremap); try reflexivity.
  exists st. split; [exact Hparse|]. split; [exact Hd|].
  apply (Hremap Sample.fromOffsetZero (toString [Mapped "x" None 0 codeFeatures.verification])).
  reflexivity.
Defined.

(** * Further properties *)

Import Paths Virtual.

(** ** getMutualRoot *)

Lemma upward_climb (pattern : string) :
  ∃ rest, pattern = climb (upward pattern) rest
          ∧ startsWith "../" rest = false.
Proof.
  remember (String.length pattern) as n eqn:Hn.
  revert pattern Hn. induction (lt_wf n) as [n _ IH]. intros pattern ->.
  destruct pattern as [|a [|b [|c rest]]].
  - by exists "".
  - exists (String a ""). split; [done|].
    change (Ascii.eqb "." a && false = false). apply andb_false_r.
  - exists (String a (String b "")). split; [done|].
    change (Ascii.eqb "." a && (Ascii.eqb "." b && false) = false).
    by rewrite andb_false_r, andb_false_r.
  - assert (startsWith "../" (String a (String b (String c rest)))
            = Ascii.eqb a "." && Ascii.eqb b "." && Ascii.eqb c "/") as Hsw.
    { change (Ascii.eqb "." a && (Ascii.eqb "." b && (Ascii.eqb "/" c && true))
              = Ascii.eqb a "." && Ascii.eqb b "." && Ascii.eqb c "/").
      rewrite andb_true_r, andb_assoc.
      by rewrite (Ascii.eqb_sym "." a), (Ascii.eqb_sym "." b),
                 (Ascii.eqb_sym "/" c). }
    cbn [upward].
    destruct (Ascii.eqb a "." && Ascii.eqb b "." && Ascii.eqb c "/") eqn:Hup.
    + apply andb_prop in Hup as [Hup Hc]. apply andb_prop in Hup as [Ha Hb].
      apply Ascii.eqb_eq in Ha, Hb, Hc. subst.
      destruct (IH (String.length rest) ltac:(simpl; lia) rest eq_refl)
        as (rest' & Heq & Hrest).
      exists rest'. split; [|done]. simpl. by rewrite <-Heq.
    + by eexists.
Qed.

Lemma upwardLevel_fold (patterns : list string) (start : nat) :
  let level := fold_left (fun upwardLevel pattern =>
                 if (upwardLevel <? upward pattern)%nat
                 then upward pattern else upwardLevel) patterns start in
  (start <= level)%nat
  ∧ Forall (fun pattern => (upward pattern <= level)%nat) patterns
  ∧ (level = start
     ∨ ∃ pattern, pattern ∈ patterns ∧ upward pattern = level).
Proof.
  revert start. induction patterns as [|p patterns IH]; intros start; simpl.
  - split; [lia|]. split; [constructor | by left].
  - destruct (Nat.ltb_spec start (upward p)) as [Hlt|Hge].
    + destruct (IH (upward p)) as (H1 & H2 & H3).
      split; [lia|]. split; [by constructor|].
      right. destruct H3 as [-> | (q & Hq & <-)].
      * exists p. split; [left | done].
      * exists q. split; [by right | done].
    + destruct (IH start) as (H1 & H2 & H3).
      split; [done|]. split; [constructor; [lia | done]|].
      destruct H3 as [-> | (q & Hq & <-)]; [by left|].
      right. exists q. split; [by right | done].
Qed.

(** The root that [getMutualRoot] joins climbs as many levels as the
    pattern with the most leading "../" segments, no more: every pattern is
    that many or fewer "../" followed by a rest that does not start with
    "../", one pattern has exactly that many unless the level is 0. *)
Theorem getMutualRoot_level (join : list string -> string)
    (patterns : list string) (configRoot : string) :
  getMutualRoot join patterns configRoot
  = join (configRoot :: repeat ".." (upwardLevel patterns))
  ∧ Forall (fun pattern =>
              ∃ rest, pattern = climb (upward pattern) rest
                      ∧ startsWith "../" rest = false
                      ∧ (upward pattern <= upwardLevel patterns)%nat)
           patterns
  ∧ (upwardLevel patterns = 0%nat
     ∨ ∃ pattern, pattern ∈ patterns
                  ∧ upward pattern = upwardLevel patterns).
Proof.
  destruct (upwardLevel_fold patterns 0) as (_ & Hle & Hmax).
  split; [done|]. split; [|done].
  apply Forall_forall. intros p Hp.
  destruct (upward_climb p) as (rest & Heq & Hrest).
  exists rest. split; [done|]. split; [done|].
  by apply (proj1 (Forall_forall _ _) Hle).
Qed.

(** ** Line starts *)

Lemma scanNewlines_elem (i : Z) (text : string) (o : Z) :
  o ∈ scanNewlines i text
  ↔ ∃ k : nat, String.get k text = Some "010"%char ∧ o = i + Z.of_nat k + 1.
Proof.
  revert i. induction text as [|c rest IH]; intros i; simpl.
  - split; [by intros ?%elem_of_nil | by intros (k & ? & _)].
  - destruct (Ascii.eqb_spec c "010") as [->|Hc].
    + rewrite elem_of_cons, IH. split.
      * intros [-> | (k & Hk & ->)]; [exists 0%nat | exists (S k)];
          (split; [done | lia]).
      * intros ([|k] & Hk & ->); [left; lia | right].
        exists k. split; [done | lia].
    + rewrite IH. split.
      * intros (k & Hk & ->). exists (S k). split; [done | lia].
      * intros ([|k] & Hk & ->); [simpl in Hk; congruence|].
        exists k. split; [done | lia].
Qed.

Lemma scanNewlines_sorted (i : Z) (text : string) :
  StronglySorted Z.lt (scanNewlines i text)
  ∧ Forall (fun o => i < o <= i + JS.length text) (scanNewlines i text).
Proof.
  revert i. induction text as [|c rest IH]; intros i; simpl.
  - split; constructor.
  - destruct (IH (i + 1)) as [Hs Hf].
    assert (Forall (fun o => i < o <= i + JS.length (String c rest))
                   (scanNewlines (i + 1) rest)) as Hf'.
    { eapply Forall_impl; [exact Hf|]. intros o. unfold JS.length. simpl. lia. }
    destruct (Ascii.eqb c "010"); [|done]. split.
    + constructor; [done|]. eapply Forall_impl; [exact Hf|]. simpl. lia.
    + constructor; [|done]. unfold JS.length. simpl. lia.
Qed.

Lemma scanNewlines_length (i : Z) (text : string) :
  List.length (JS.split "010" text) = S (List.length (scanNewlines i text)).
Proof.
  revert i. induction text as [|c rest IH]; intros i; simpl; [done|].
  specialize (IH (i + 1)).
  destruct (Ascii.eqb c "010"); simpl; [by rewrite IH|].
  destruct (JS.split "010" rest); simpl in *; [lia | done].
Qed.

Lemma lineOffsets_shape (text : string) :
  StronglySorted Z.lt (lineOffsets text)
  ∧ (∀ o, o ∈ lineOffsets text
          ↔ o = 0 ∨ ∃ k : nat, String.get k text = Some "010"%char
                               ∧ o = Z.of_nat k + 1)
  ∧ Forall (fun o => 0 <= o <= JS.length text) (lineOffsets text)
  ∧ List.length (lineOffsets text) = List.length (JS.split "010" text).
Proof.
  unfold lineOffsets. destruct (scanNewlines_sorted 0 text) as [Hs Hf].
  split; [|split; [|split]].
  - constructor; [done|]. eapply Forall_impl; [exact Hf|]. simpl. lia.
  - intros o. rewrite elem_of_cons, scanNewlines_elem.
    split; (intros [-> | (k & Hk & ->)]; [by left | right]);
      exists k; (split; [done | lia]).
  - constructor; [unfold JS.length; lia|].
    eapply Forall_impl; [exact Hf|]. simpl. lia.
  - simpl. by rewrite (scanNewlines_length 0).
Qed.

(** The line starts that both getters scan for are exactly offset 0 and the
    offsets right after a newline character; they are strictly increasing,
    none lies beyond the end of the text, and there is one per line of
    [text.split("\n")]. *)
Theorem lineOffsets_exact (text : string) :
  StronglySorted Z.lt (lineOffsets text)
  ∧ (∀ o, o ∈ lineOffsets text
          ↔ o = 0 ∨ ∃ k : nat, String.get k text = Some "010"%char
                               ∧ o = Z.of_nat k + 1)
  ∧ Forall (fun o => 0 <= o <= JS.length text) (lineOffsets text)
  ∧ List.length (lineOffsets text) = List.length (JS.split "010" text).
Proof. apply lineOffsets_shape. Qed.

Lemma findLine_next (offsets : list Z) (offset : Z) (before rest : list Z)
    (line : nat) (y : Z) :
  offsets = before ++ rest →
  S line = List.length before →
  offsets !! S (findLine rest (List.length before) line offset) = Some y →
  offset < y.
Proof.
  revert before line. induction rest as [|o rest IH]; intros before line Hoff Hline;
    simpl.
  - rewrite Hline, Hoff, app_nil_r. intros H.
    apply lookup_lt_Some in H. lia.
  - destruct (Z.ltb_spec offset o) as [Hlt|Hge].
    + rewrite Hline, Hoff, list_lookup_middle by done. by intros [= <-].
    + replace (S (List.length before)) with (List.length (before ++ [o]))
        by (rewrite length_app; simpl; lia).
      apply IH.
      * by rewrite <-app_assoc.
      * rewrite length_app. simpl. lia.
Qed.

Lemma sorted_lookup_lt (l : list Z) (i j : nat) (x y : Z) :
  StronglySorted Z.lt l → l !! i = Some x → l !! j = Some y →
  (i < j)%nat → x < y.
Proof.
  intros Hs. revert i j. induction Hs as [|a l Hs IH Ha]; intros i j Hi Hj Hij.
  - done.
  - destruct i as [|i], j as [|j]; try lia; simpl in *.
    + injection Hi as ->. 
      apply (proj1 (Forall_forall _ _) Ha), list_elem_of_lookup. eauto.
    + apply (IH i j); [done | done | lia].
Qed.

(** The 0-based line that the getter finds for a non-negative offset. *)
Lemma findLine_spec (text : string) (o : Z) :
  0 <= o →
  ∃ x, lineOffsets text !! findLine (lineOffsets text) 0 0 o = Some x
       ∧ x <= o
       ∧ ∀ j y, lineOffsets text !! j = Some y →
                (y <= o ↔ (j <= findLine (lineOffsets text) 0 0 o)%nat).
Proof.
  intros Ho. destruct (findLine_lookup text o) as [x Hx].
  destruct (lineOffsets_shape text) as (Hsorted & _).
  set (k := findLine (lineOffsets text) 0 0 o) in *.
  assert (x <= o) as Hxo.
  { apply (findLine_le (lineOffsets text) o [] (lineOffsets text) 0 x);
      [done | | done].
    unfold lineOffsets. simpl. intros y [= <-]. lia. }
  assert (∀ y, lineOffsets text !! S k = Some y → o < y) as Hnext.
  { intros y. subst k. unfold lineOffsets. simpl.
    destruct (Z.ltb_spec o 0) as [|_]; [lia|].
    apply (findLine_next (0 :: scanNewlines 0 text) o [0]
             (scanNewlines 0 text) 0 y); done. }
  exists x. split; [done|]. split; [done|]. intros j y Hj. split.
  - intros Hyo. destruct (decide (j <= k)%nat) as [|Hjk]; [done|].
    exfalso. destruct (lineOffsets text !! S k) as [z|] eqn:Hz.
    + specialize (Hnext z eq_refl).
      destruct (decide (j = S k)) as [->|Hne];
        [assert (z = y) by congruence; lia|].
      pose proof (sorted_lookup_lt _ (S k) j z y Hsorted Hz Hj ltac:(lia)).
      lia.
    + apply lookup_ge_None in Hz. apply lookup_lt_Some in Hj. lia.
  - intros Hjk. destruct (decide (j = k)) as [->|Hne]; [congruence|].
    pose proof (sorted_lookup_lt _ j k y x Hsorted Hj Hx ltac:(lia)). lia.
Qed.

(** For a non-negative offset the getter built by
    [createLineAndColumnGetter] returns the last line that starts at or
    before the offset: the starts of the lines up to it are at most the
    offset, the starts of the later lines are greater; the column counts
    from that line's start. *)
Theorem line_is_greatest (text : string) (o : Z) :
  0 <= o →
  ∃ x, JS.at_ (lineOffsets text) (line (createLineAndColumnGetter text o) - 1)
       = Some x
       ∧ column (createLineAndColumnGetter text o) = o - x + 1
       ∧ ∀ (j : nat) y, lineOffsets text !! j = Some y →
           (y <= o ↔ Z.of_nat j + 1 <= line (createLineAndColumnGetter text o)).
Proof.
  intros Ho. destruct (findLine_spec text o Ho) as (x & Hx & Hxo & Hall).
  exists x. unfold createLineAndColumnGetter, JS.at_. cbn [line column].
  set (k := findLine (lineOffsets text) 0 0 o) in *.
  replace (Z.of_nat k + 1 - 1) with (Z.of_nat k) by lia.
  destruct (Z.ltb_spec (Z.of_nat k) 0); [lia|]. rewrite Nat2Z.id, Hx.
  split; [done|]. split; [done|]. intros j y Hj. rewrite (Hall j y Hj). lia.
Qed.

(** In the other direction: the offset that [createOffsetGetter] gives for
    a position on an existing line, whose column is at least 1 and does not
    run past the start of the next line, is read back by the getter of
    [createLineAndColumnGetter] as that same line and column. *)
Theorem offset_round_trip (text : string) (l c x : Z) :
  JS.at_ (lineOffsets text) (l - 1) = Some x →
  1 <= c →
  (∀ y, JS.at_ (lineOffsets text) l = Some y → x + c - 1 < y) →
  createOffsetGetter text l c = JS.Num (x + c - 1)
  ∧ createLineAndColumnGetter text (x + c - 1) = {| line := l; column := c |}.
Proof.
  intros Hl Hc Hnext. split.
  { unfold createOffsetGetter. by rewrite Hl. }
  unfold JS.at_ in Hl, Hnext.
  destruct (Z.ltb_spec (l - 1) 0) as [|Hl0]; [done|].
  destruct (lineOffsets_shape text) as (Hsorted & _ & Hrange & _).
  assert (0 <= x) as Hx0.
  { apply list_elem_of_lookup_2 in Hl.
    by apply (proj1 (Forall_forall _ _) Hrange) in Hl as [? _]. }
  destruct (findLine_spec text (x + c - 1) ltac:(lia)) as (z & Hz & Hzo & Hall).
  unfold createLineAndColumnGetter.
  set (k := findLine (lineOffsets text) 0 0 (x + c - 1)) in *.
  assert (k = Z.to_nat (l - 1)) as Hk.
  { pose proof (proj1 (Hall _ _ Hl) ltac:(lia)) as Hle.
    destruct (decide (k = Z.to_nat (l - 1))) as [|Hne]; [done|].
    exfalso.
    destruct (lineOffsets text !! Z.to_nat l) as [y|] eqn:Hy.
    - assert (x + c - 1 < y) as Hlt.
      { apply Hnext. destruct (Z.ltb_spec l 0); [lia | done]. }
      pose proof (proj2 (Hall _ _ Hy) ltac:(lia)). lia.
    - apply lookup_ge_None in Hy. apply lookup_lt_Some in Hz. lia. }
  rewrite Hz. rewrite Hk in Hz. rewrite Hl in Hz. injection Hz as <-.
  f_equal; lia.
Qed.

(** [createOffsetGetter] answers [NaN] exactly for the lines that do not
    exist: line numbers below 1 or above the number of lines. *)
Theorem offset_of_missing_line (text : string) (l c : Z) :
  createOffsetGetter text l c = JS.NaN
  ↔ l < 1 ∨ Z.of_nat (List.length (JS.split "010" text)) < l.
Proof.
  destruct (lineOffsets_shape text) as (_ & _ & _ & <-).
  unfold createOffsetGetter, JS.at_.
  destruct (Z.ltb_spec (l - 1) 0) as [Hneg|Hpos].
  - split; [intros _; left; lia | done].
  - destruct (lineOffsets text !! Z.to_nat (l - 1)) as [x|] eqn:Hx.
    + apply lookup_lt_Some in Hx. split; [done | lia].
    + apply lookup_ge_None in Hx. split; [intros _; right; lia | done].
Qed.

(** ** The position map against the virtual text *)

Lemma append_cons (x : ascii) (a b : string) :
  String.append (String x a) b = String x (String.append a b).
Proof. reflexivity. Qed.

Lemma append_length (a b : string) :
  String.length (String.append a b)
  = (String.length a + String.length b)%nat.
Proof.
  induction a as [|x a IH]; [done|].
  rewrite append_cons. simpl. by rewrite IH.
Qed.

Lemma append_assoc (a b c : string) :
  String.append (String.append a b) c = String.append a (String.append b c).
Proof.
  induction a as [|x a IH]; [done|]. by rewrite !append_cons, IH.
Qed.

Lemma substring_prefix (t b : string) :
  String.substring 0 (String.length t) (String.append t b) = t.
Proof.
  induction t as [|x t IH]; [by destruct b|].
  rewrite append_cons. simpl. by rewrite IH.
Qed.

Lemma substring_middle (a t b : string) :
  String.substring (String.length a) (String.length t)
    (String.append a (String.append t b)) = t.
Proof.
  induction a as [|x a IH]; [exact (substring_prefix t b)|].
  rewrite append_cons. simpl. exact IH.
Qed.

Lemma JS_length_append (a b : string) :
  JS.length (String.append a b) = JS.length a + JS.length b.
Proof. unfold JS.length. rewrite append_length. lia. Qed.

Lemma toString_cons (c : Code) (rest : list Code) :
  toString (c :: rest) = String.append (Boundary.textOf c) (toString rest).
Proof. reflexivity. Qed.

Lemma toString_app (before after : list Code) :
  toString (before ++ after)
  = String.append (toString before) (toString after).
Proof.
  induction before as [|c before IH]; [done|].
  rewrite <-app_comm_cons, !toString_cons, IH. by rewrite append_assoc.
Qed.

Lemma originalMappings_split (length : Z) (before after : list Code) :
  originalMappings length (before ++ after)
  = originalMappings length before
    ++ originalMappings (length + JS.length (toString before)) after.
Proof.
  revert length. induction before as [|c before IH]; intros length.
  - simpl. f_equal. unfold JS.length. simpl. lia.
  - rewrite <-app_comm_cons, toString_cons, JS_length_append.
    rewrite Z.add_assoc.
    destruct c as [text | text source offset d]; simpl; by rewrite IH.
Qed.

Lemma original_points (length : Z) (codes : list Code) (m : Mapping) :
  m ∈ originalMappings length codes →
  ∃ s g l, sourceOffsets m = [s] ∧ generatedOffsets m = [g] ∧ lengths m = [l]
           ∧ length <= g ∧ 0 <= l
           ∧ g + l <= length + JS.length (toString codes).
Proof.
  revert length. induction codes as [|c codes IH]; intros length.
  - by intros ?%elem_of_nil.
  - rewrite toString_cons, JS_length_append.
    destruct c as [text | text source offset d]; simpl.
    + intros Hm. destruct (IH _ Hm) as (s & g & l & ? & ? & ? & ? & ? & Hle).
      exists s, g, l. repeat (split; [done|]).
      pose proof (Z.le_refl 0). unfold JS.length in *. split; lia.
    + intros [-> | Hm]%elem_of_cons.
      * exists offset, length, (JS.length text). simpl.
        repeat (split; [done|]). unfold JS.length. lia.
      * destruct (IH _ Hm) as (s & g & l & ? & ? & ? & ? & ? & Hle).
        exists s, g, l. repeat (split; [done|]).
        unfold JS.length in *. split; lia.
Qed.

Lemma points_pushOnto (m target : Mapping) :
  parallel target →
  points (pushOnto m target) = points target ++ points m.
Proof.
  intros [H1 H2]. unfold points, pushOnto. simpl.
  rewrite (zip_with_app pair (sourceOffsets target)) by done.
  rewrite zip_with_app; [done|].
  rewrite length_zip_with. lia.
Qed.

Lemma parallel_pushOnto (m target : Mapping) :
  parallel m → parallel target → parallel (pushOnto m target).
Proof.
  intros [H1 H2] [H3 H4]. unfold parallel, pushOnto. simpl.
  rewrite !length_app. lia.
Qed.

Lemma compacted_snoc (p : list Mapping) (m : Mapping) :
  compacted (p ++ [m])
  = mappings (combine {| mappings := compacted p;
                         tokens := tokens (fold_left combine p
                                     {| mappings := []; tokens := ∅ |}) |} m).
Proof.
  rewrite <-(combineAll_compacted (p ++ [m])). unfold combineAll.
  rewrite fold_left_app. simpl.
  destruct (combined_fold p [] _ combined_initial) as [Hmap _]. simpl in Hmap.
  destruct (fold_left combine p _) as [ms tk]. simpl in *. by subst.
Qed.

Lemma compacted_points (original : list Mapping) :
  Forall parallel original →
  Forall parallel (compacted original)
  ∧ concat (map points (compacted original)) ≡ₚ concat (map points original).
Proof.
  induction original as [|m p IH] using rev_ind; intros Hall.
  - split; [constructor | done].
  - apply Forall_app in Hall as [Hp Hm].
    apply (proj1 (Forall_singleton _ _)) in Hm.
    destruct (IH Hp) as [Hpar Hperm]. rewrite compacted_snoc.
    destruct (combined_fold p [] _ combined_initial) as [_ Htok].
    simpl in Htok. unfold combine. simpl.
    rewrite (map_app points p), concat_app. simpl. rewrite app_nil_r.
    destruct (__combineToken (data m)) as [t|];
      [destruct (tokens _ !! t) as [i|] eqn:Hi|]; simpl.
    + destruct (proj1 (Htok t i) Hi) as (r & Hr & _).
      assert (i < List.length (compacted p))%nat as Hlt.
      { rewrite compacted_length. by eapply lookup_lt_Some. }
      destruct (lookup_lt_is_Some_2 _ _ Hlt) as [target Htarget].
      rewrite <-(take_drop_middle _ _ _ Htarget) in Hpar, Hperm |- *.
      assert (List.length (take i (compacted p)) = i) as Hlen
        by (rewrite length_take; lia).
      rewrite alter_app_r_alt by lia. rewrite Hlen, Nat.sub_diag. simpl.
      apply Forall_app in Hpar as [Hpar1 Hpar2].
      apply Forall_cons in Hpar2 as [Hpt Hpar2].
      split.
      * apply Forall_app. split; [done|]. constructor; [|done].
        by apply parallel_pushOnto.
      * rewrite <-Hperm. rewrite !map_app, !concat_app. simpl.
        rewrite points_pushOnto by done. 
        rewrite <-!app_assoc. apply Permutation_app_head.
        apply Permutation_app_head. apply Permutation_app_comm.
    + split; [apply Forall_app; split; [done | by constructor]|].
      rewrite map_app, concat_app. simpl. rewrite app_nil_r.
      by apply Permutation_app_tail.
    + split; [apply Forall_app; split; [done | by constructor]|].
      rewrite map_app, concat_app. simpl. rewrite app_nil_r.
      by apply Permutation_app_tail.
Qed.

Lemma elem_of_concat {A : Type} (x : A) (ls : list (list A)) :
  x ∈ concat ls ↔ ∃ l, x ∈ l ∧ l ∈ ls.
Proof.
  induction ls as [|l ls IH]; simpl.
  - split; [by intros ?%elem_of_nil | by intros (l & _ & ?%elem_of_nil)].
  - rewrite elem_of_app, IH. split.
    + intros [Hx | (l' & Hx & Hl')].
      * exists l. split; [done | left].
      * exists l'. split; [done | by right].
    + intros (l' & Hx & [-> | Hl']%elem_of_cons); [by left | right].
      by exists l'.
Qed.

Lemma original_parallel (length : Z) (codes : list Code) :
  Forall parallel (originalMappings length codes).
Proof.
  apply Forall_forall. intros m Hm.
  destruct (original_points _ _ _ Hm) as (s & g & l & Hs & Hg & Hl & _).
  unfold parallel. by rewrite Hs, Hg, Hl.
Qed.

Lemma createMappings_points (codes : list Code) :
  Forall parallel (createMappings codes)
  ∧ concat (map points (createMappings codes))
    ≡ₚ concat (map points (originalMappings 0 codes)).
Proof.
  unfold createMappings. rewrite combineAll_compacted.
  apply compacted_points, original_parallel.
Qed.

(** Combining entries neither loses nor invents a correspondence: in every
    entry of [createMappings] the three arrays have the same length, and the
    (source offset, generated offset, length) triples of all entries are,
    up to order, those of the mapped fragments. *)
Theorem points_preserved (codes : list Code) :
  Forall parallel (createMappings codes)
  ∧ concat (map points (createMappings codes))
    ≡ₚ concat (map points (originalMappings 0 codes)).
Proof. apply createMappings_points. Qed.

(** Every correspondence of every entry of [createMappings] lies inside the
    virtual text [toString(codes)]: its generated offset and its length are
    not negative and the span they delimit ends at or before the end of the
    text. *)
Theorem entries_within_text (codes : list Code) :
  Forall (fun entry =>
            Forall (fun point =>
                      0 <= point.1.2 ∧ 0 <= point.2
                      ∧ point.1.2 + point.2 <= JS.length (toString codes))
                   (points entry))
         (createMappings codes).
Proof.
  destruct (createMappings_points codes) as [_ Hperm].
  apply Forall_forall. intros entry Hentry.
  apply Forall_forall. intros point Hpoint.
  assert (point ∈ concat (map points (originalMappings 0 codes))) as Hin.
  { rewrite <-Hperm. apply elem_of_concat. exists (points entry).
    split; [done|]. by apply list_elem_of_fmap_2. }
  apply elem_of_concat in Hin as (ps & Hps & Hin).
  apply list_elem_of_fmap in Hin as (m & -> & Hm).
  destruct (original_points _ _ _ Hm) as (s & g & l & Hs & Hg & Hl & ? & ? & ?).
  unfold points in Hps. rewrite Hs, Hg, Hl in Hps. simpl in Hps.
  apply list_elem_of_singleton in Hps as ->. simpl. lia.
Qed.

(** A mapped fragment is found in the virtual text at the generated offset
    the position map records for it: that offset is the length of the text
    of the fragments before it, the fragment's text is the substring of
    [toString(codes)] that starts there, and some entry of [createMappings]
    holds the triple of its source offset, that offset and its length. *)
Theorem fragment_located (before : list Code) (text : string)
    (source : option string) (offset : Z) (d : CodeInformation)
    (after : list Code) :
  String.substring (String.length (toString before)) (String.length text)
    (toString (before ++ Mapped text source offset d :: after))
  = text
  ∧ ∃ entry,
      entry ∈ createMappings (before ++ Mapped text source offset d :: after)
      ∧ (offset, JS.length (toString before), JS.length text) ∈ points entry.
Proof.
  split.
  - rewrite toString_app, toString_cons. apply substring_middle.
  - destruct (createMappings_points
                (before ++ Mapped text source offset d :: after))
      as [_ Hperm].
    assert ((offset, JS.length (toString before), JS.length text)
            ∈ concat (map points (createMappings
                (before ++ Mapped text source offset d :: after)))) as Hin.
    { rewrite Hperm, originalMappings_split. simpl.
      rewrite map_app, concat_app. apply elem_of_app. right. simpl.
      unfold points at 1. simpl. left. }
    apply elem_of_concat in Hin as (ps & Hps & Hin).
    apply list_elem_of_fmap in Hin as (entry & -> & Hentry).
    by exists entry.
Qed.

Lemma combine_fresh (original : list Mapping) (st : Combine) :
  NoDup (omap tokenOf original) →
  (∀ token, token ∈ omap tokenOf original → tokens st !! token = None) →
  mappings (fold_left combine original st) = mappings st ++ original.
Proof.
  revert st. induction original as [|m rest IH]; intros st Hnd Hfresh; simpl.
  - by rewrite app_nil_r.
  - simpl in Hnd, Hfresh. unfold combine at 2.
    change (__combineToken (data m)) with (tokenOf m).
    destruct (tokenOf m) as [t|] eqn:Hm.
    + apply NoDup_cons in Hnd as [Ht Hnd].
      rewrite (Hfresh t) by left. rewrite IH; simpl.
      * by rewrite <-app_assoc.
      * done.
      * intros u Hu. rewrite lookup_insert_ne by (intros ->; done).
        apply Hfresh. by right.
    + rewrite IH; simpl; [by rewrite <-app_assoc | done | done].
Qed.

(** When no two mapped fragments share a combine token, in particular when
    none carries one, [createMappings] returns the single-point entries of
    its first loop unchanged. *)
Theorem distinct_tokens_unchanged (codes : list Code) :
  NoDup (omap (fun code => Boundary.dataOf code ≫= __combineToken) codes) →
  createMappings codes = originalMappings 0 codes.
Proof.
  intros Hnd. unfold createMappings, combineAll.
  assert (omap tokenOf (originalMappings 0 codes)
          = omap (fun code => Boundary.dataOf code ≫= __combineToken) codes)
    as Htok.
  { generalize 0. clear. induction codes as [|c codes IH]; intros len; [done|].
    destruct c as [text | text source offset d]; simpl; [apply IH|].
    unfold tokenOf at 1. simpl. rewrite IH. done. }
  rewrite combine_fresh; [done | by rewrite Htok |].
  intros token _. apply lookup_empty.
Qed.

(** ** Rebasing fragments to whole-file offsets *)

Lemma combine_sameGenerated (ms1 ms2 : list Mapping) (tk : gmap symbol nat)
    (m1 m2 : Mapping) :
  Forall2 sameGenerated ms1 ms2 → sameGenerated m1 m2 →
  Forall2 sameGenerated
    (mappings (combine {| mappings := ms1; tokens := tk |} m1))
    (mappings (combine {| mappings := ms2; tokens := tk |} m2))
  ∧ tokens (combine {| mappings := ms1; tokens := tk |} m1)
    = tokens (combine {| mappings := ms2; tokens := tk |} m2).
Proof.
  intros Hms (Hg & Hl & Hd). unfold combine. simpl. rewrite Hd.
  destruct (__combineToken (data m2)) as [t|]; [destruct (tk !! t) as [i|]|];
    simpl.
  - split; [|done]. apply Forall2_alter; [done|].
    intros x y _ _ (Hxg & Hxl & Hxd). unfold sameGenerated, pushOnto. simpl.
    by rewrite Hxg, Hxl, Hxd, Hg, Hl.
  - split; [|by rewrite (Forall2_length _ _ _ Hms)].
    apply Forall2_app; [done|]. by repeat constructor.
  - split; [|done]. apply Forall2_app; [done|]. by repeat constructor.
Qed.

Lemma fold_sameGenerated (o1 o2 : list Mapping) (ms1 ms2 : list Mapping)
    (tk : gmap symbol nat) :
  Forall2 sameGenerated o1 o2 → Forall2 sameGenerated ms1 ms2 →
  Forall2 sameGenerated
    (mappings (fold_left combine o1 {| mappings := ms1; tokens := tk |}))
    (mappings (fold_left combine o2 {| mappings := ms2; tokens := tk |})).
Proof.
  intros Ho. revert ms1 ms2 tk.
  induction Ho as [|m1 m2 o1 o2 Hm Ho IH]; intros ms1 ms2 tk Hms; [done|].
  simpl. destruct (combine_sameGenerated ms1 ms2 tk m1 m2 Hms Hm) as [H1 H2].
  destruct (combine {| mappings := ms1; tokens := tk |} m1) as [ms1' tk1].
  destruct (combine {| mappings := ms2; tokens := tk |} m2) as [ms2' tk2].
  simpl in *. subst tk2. by apply IH.
Qed.

Lemma rebase_original (blocks : gmap string IRBlock) (length : Z)
    (codes : list Code) :
  Forall2 sameGenerated
    (originalMappings length (map (rebase blocks) codes))
    (originalMappings length codes).
Proof.
  revert length. induction codes as [|c codes IH]; intros length; [done|].
  destruct c as [text | text [s|] offset d]; simpl; [apply IH| |].
  - destruct (String.eqb s "main"); [|destruct (blocks !! s)];
      (constructor; [done | apply IH]).
  - constructor; [done | apply IH].
Qed.

Lemma rebase_text (blocks : gmap string IRBlock) (code : Code) :
  Boundary.textOf (rebase blocks code) = Boundary.textOf code.
Proof.
  destruct code as [text | text [s|] offset d]; simpl; [done| |done].
  destruct (String.eqb s "main"); [done|]. by destruct (blocks !! s).
Qed.

(** Rebasing the fragments of known blocks to whole-file offsets, as
    [createVirtualFile] does before it builds the map, leaves the virtual
    text as it is and changes, entry by entry, nothing but source offsets:
    generated offsets, lengths and metadata are those of the map of the
    fragments as generated.  Rebasing twice is rebasing once. *)
Theorem rebase_keeps_generated (blocks : gmap string IRBlock)
    (codes : list Code) :
  toString (map (rebase blocks) codes) = toString codes
  ∧ Forall2 sameGenerated (createMappings (map (rebase blocks) codes))
                          (createMappings codes)
  ∧ map (rebase blocks) (map (rebase blocks) codes)
    = map (rebase blocks) codes.
Proof.
  split; [|split].
  - induction codes as [|c codes IH]; [done|].
    simpl map. by rewrite !toString_cons, IH, rebase_text.
  - unfold createMappings, combineAll.
    apply fold_sameGenerated; [apply rebase_original | constructor].
  - rewrite map_map. apply map_ext. intros c.
    destruct c as [text | text [s|] offset d]; simpl; [done| |done].
    destruct (String.eqb s "main") eqn:Hs; simpl; [by rewrite Hs|].
    destruct (blocks !! s) eqn:Hb; simpl; [done|]. by rewrite Hs, Hb.
Qed.

(** A fragment of a known block is moved by that block's [innerStart]. *)
Lemma rebase_known (blocks : gmap string IRBlock) (text blockName : string)
    (offset : Z) (d : CodeInformation) (block : IRBlock) :
  blockName ≠ "main" → blocks !! blockName = Some block →
  rebase blocks (Mapped text (Some blockName) offset d)
  = Mapped text None (offset + innerStart block) d.
Proof.
  intros Hmain Hblock. simpl.
  destruct (String.eqb_spec blockName "main"); [done|]. by rewrite Hblock.
Qed.

(** ** Wrapped boundaries in the position map *)

Lemma occurrences_none (token : symbol) (length : Z) (codes : list Code) :
  fragmentsWith token codes = [] →
  occurrences token (originalMappings length codes) = [].
Proof. intros H. by apply occurrences_fresh, tokensIn_original. Qed.

(** A boundary wrapped around fragments that do not carry its fresh token
    gives the position map exactly one entry with that token: it has two
    zero-length correspondences, from [start] to the generated offset where
    the wrapped text begins and from [end] to the one where it ends, and it
    carries the metadata handed to [generateBoundary]. *)
Theorem wrapped_boundary_entry (source : string) (start end_ : Z)
    (features : CodeInformation) (inner : list Code) (fresh : symbol)
    (before after : list Code) :
  fragmentsWith fresh before = [] →
  fragmentsWith fresh inner = [] →
  fragmentsWith fresh after = [] →
  occurrences fresh
    (createMappings
       (before
        ++ Boundary.yielded
             (Boundary.generateBoundary source start
                (Boundary.Wrap end_ features inner) fresh)
        ++ after))
  = [{| sourceOffsets := [start; end_];
        generatedOffsets :=
          [JS.length (toString before);
           JS.length (toString before) + JS.length (toString inner)];
        lengths := [0; 0];
        data := Boundary.withToken features fresh |}].
Proof.
  intros Hbefore Hinner Hafter.
  unfold createMappings. rewrite combineAll_compacted. unfold compacted.
  rewrite occurrences_map_fused, occurrences_representatives.
  rewrite decide_False by set_solver.
  unfold Boundary.generateBoundary. cbn [Boundary.yielded].
  set (opening := Mapped "" (Some source) start
                    (Boundary.withToken features fresh)).
  set (closing := Mapped "" (Some source) end_ (Boundary.onlyToken fresh)).
  replace (before ++ ([opening] ++ inner ++ [closing]) ++ after)
    with (before ++ opening :: inner ++ closing :: after)
    by (simpl; by rewrite <-app_assoc).
  set (original := originalMappings 0
                     (before ++ opening :: inner ++ closing :: after)).
  assert (occurrences fresh original
          = [ {| sourceOffsets := [start];
                 generatedOffsets := [JS.length (toString before)];
                 lengths := [0];
                 data := Boundary.withToken features fresh |};
              {| sourceOffsets := [end_];
                 generatedOffsets :=
                   [JS.length (toString before) + JS.length (toString inner)];
                 lengths := [0];
                 data := Boundary.onlyToken fresh |} ]) as Hocc.
  { subst original. rewrite originalMappings_split.
    rewrite occurrences_app, occurrences_none by done.
    subst opening. cbn [originalMappings app].
    rewrite occurrences_cons, decide_True by done.
    rewrite originalMappings_split.
    rewrite occurrences_app, occurrences_none by done.
    subst closing. cbn [originalMappings app].
    rewrite occurrences_cons, decide_True by done.
    rewrite occurrences_none by done.
    change (JS.length "") with 0.
    by rewrite Z.add_0_l, Z.add_0_r. }
  rewrite Hocc. simpl. unfold fused. cbn [tokenOf data Boundary.withToken
    __combineToken]. by rewrite Hocc.
Qed.

(** ** Patching the extension of an imported virtual file *)

Lemma substring_length (n m : nat) (s : string) :
  String.length (String.substring n m s)
  = Nat.min m (String.length s - n).
Proof.
  revert n m. induction s as [|c s IH]; intros n m.
  - destruct n, m; simpl; lia.
  - destruct n as [|n]; [destruct m as [|m]|]; simpl; [done| |].
    + rewrite IH. lia.
    + by rewrite IH.
Qed.

Lemma append_nil_r (s : string) : String.append s "" = s.
Proof. induction s as [|c s IH]; [done|]. by rewrite append_cons, IH. Qed.

Lemma slice_substring (s : string) (a b : Z) :
  0 <= a <= b → b <= JS.length s →
  slice s a b = String.substring (Z.to_nat a) (Z.to_nat (b - a)) s.
Proof.
  intros Hab Hb. unfold slice.
  destruct (Z.ltb_spec a 0), (Z.ltb_spec b 0); try lia.
  by rewrite !Z.min_l by lia.
Qed.

Lemma repeatChar_length (c : ascii) (n : nat) :
  String.length (repeatChar c n) = n.
Proof. induction n as [|n IH]; simpl; [done | by rewrite IH]. Qed.

Lemma padStart4_length (s : string) :
  String.length (padStart4 s) = Nat.max 4 (String.length s).
Proof. unfold padStart4. rewrite append_length, repeatChar_length. lia. Qed.

(** The import patch of [generate] works in place when the language of the
    imported file has at most three characters and the four characters at
    [offset] exist: the virtual text keeps its length, so every generated
    offset of the position map still points at the same place, the text
    before [offset] and the text from [offset + 4] on are untouched, and the
    four characters in between are the padded extension. *)
Theorem patchImport_in_place (virtualText : string) (offset : Z)
    (virtualLang : string) :
  0 <= offset → offset + 4 <= JS.length virtualText →
  (String.length virtualLang <= 3)%nat →
  JS.length (patchImport virtualText offset virtualLang)
  = JS.length virtualText
  ∧ slice (patchImport virtualText offset virtualLang) 0 offset
    = slice virtualText 0 offset
  ∧ slice (patchImport virtualText offset virtualLang) offset (offset + 4)
    = padStart4 (String.append "." virtualLang)
  ∧ sliceFrom (patchImport virtualText offset virtualLang) (offset + 4)
    = sliceFrom virtualText (offset + 4).
Proof.
  intros H0 H4 Hlang. unfold patchImport, sliceFrom.
  set (front := slice virtualText 0 offset).
  set (patch := padStart4 (String.append "." virtualLang)).
  set (back := slice virtualText (offset + 4) (JS.length virtualText)).
  assert (String.length front = Z.to_nat offset) as Hfront.
  { subst front. rewrite slice_substring by lia. rewrite substring_length.
    unfold JS.length in H4. lia. }
  assert (String.length patch = 4%nat) as Hpatch.
  { subst patch. rewrite padStart4_length, append_length. simpl. lia. }
  assert (String.length back = Z.to_nat (JS.length virtualText - (offset + 4)))
    as Hback.
  { subst back. rewrite slice_substring by lia. rewrite substring_length.
    unfold JS.length in *. lia. }
  assert (JS.length (String.append front (String.append patch back))
          = JS.length virtualText) as Hlen.
  { unfold JS.length in *. rewrite !append_length, Hfront, Hpatch, Hback. lia. }
  split; [done|]. split; [|split].
  - rewrite slice_substring by lia.
    replace (Z.to_nat (offset - 0)) with (String.length front) by lia.
    apply substring_prefix.
  - rewrite slice_substring by lia.
    replace (Z.to_nat offset) with (String.length front) by lia.
    replace (Z.to_nat (offset + 4 - offset)) with (String.length patch) by lia.
    apply substring_middle.
  - rewrite Hlen. rewrite slice_substring by lia.
    rewrite <-append_assoc, <-(append_nil_r back) at 1.
    replace (Z.to_nat (offset + 4)) with (String.length (String.append front patch))
      by (rewrite append_length; lia).
    replace (Z.to_nat (JS.length virtualText - (offset + 4)))
      with (String.length back) by lia.
    apply substring_middle.
Qed.

(** ** The header pattern *)

Import Header.

Lemma literally_Some (literal s rest : string) :
  literally literal s = Some rest → s = String.append literal rest.
Proof.
  revert s. induction literal as [|a literal IH]; intros s; simpl.
  - by intros [= ->].
  - destruct s as [|b s]; [done|].
    destruct (Ascii.eqb_spec a b) as [->|]; [|done].
    intros H. rewrite append_cons. f_equal. by apply IH.
Qed.

Lemma literally_append (literal rest : string) :
  literally literal (String.append literal rest) = Some rest.
Proof.
  induction literal as [|a literal IH]; [done|].
  rewrite append_cons. simpl. by rewrite Ascii.eqb_refl.
Qed.

Lemma digits_Some (s ds tail : string) :
  digits s = (ds, tail) →
  s = String.append ds tail ∧ allDigits ds = true
  ∧ startsWithDigit tail = false.
Proof.
  revert ds tail. induction s as [|c s IH]; intros ds tail; simpl.
  - by intros [= <- <-].
  - destruct (JS.isDigit c) eqn:Hc.
    + destruct (digits s) as [ds' tail'] eqn:Hs. intros [= <- <-].
      destruct (IH _ _ eq_refl) as (-> & Hds & Ht).
      rewrite append_cons. simpl. by rewrite Hc.
    + intros [= <- <-]. simpl. by rewrite Hc.
Qed.

Lemma digits_append (ds tail : string) :
  allDigits ds = true → startsWithDigit tail = false →
  digits (String.append ds tail) = (ds, tail).
Proof.
  intros Hds Ht. induction ds as [|c ds IH].
  - destruct tail as [|c tail]; [done|]. simpl in *. by rewrite Ht.
  - rewrite append_cons. simpl in *. apply andb_prop in Hds as [Hc Hds].
    by rewrite Hc, IH.
Qed.

Lemma matchAfterPath_Some (s line column code message : string) :
  matchAfterPath s = Some (line, column, code, message) →
  s = String.append ":" (String.append line (String.append ":"
        (String.append column (String.append " - error TS"
          (String.append code (String.append ": " message))))))
  ∧ allDigits line = true ∧ nonEmpty line = true
  ∧ allDigits column = true ∧ nonEmpty column = true
  ∧ allDigits code = true ∧ nonEmpty code = true
  ∧ noLineTerminator message = true.
Proof.
  unfold matchAfterPath.
  destruct (literally ":" s) as [s1|] eqn:H1; [|done].
  destruct (digits s1) as [l s2] eqn:H2.
  destruct (nonEmpty l) eqn:Hl; cbn [negb]; [|done].
  destruct (literally ":" s2) as [s3|] eqn:H3; [|done].
  destruct (digits s3) as [c s4] eqn:H4.
  destruct (nonEmpty c) eqn:Hc; cbn [negb]; [|done].
  destruct (literally " - error TS" s4) as [s5|] eqn:H5; [|done].
  destruct (digits s5) as [k s6] eqn:H6.
  destruct (nonEmpty k) eqn:Hk; cbn [negb]; [|done].
  destruct (literally ": " s6) as [m|] eqn:H7; [|done].
  destruct (noLineTerminator m) eqn:Hm; [|done].
  intros [= <- <- <- <-].
  apply literally_Some in H1, H3, H5, H7.
  apply digits_Some in H2 as (H2 & ? & _), H4 as (H4 & ? & _),
    H6 as (H6 & ? & _).
  subst. done.
Qed.

Lemma noLineTerminator_app (a b : string) :
  noLineTerminator (String.append a b)
  = noLineTerminator a && noLineTerminator b.
Proof.
  induction a as [|c a IH]; [done|].
  rewrite append_cons. simpl. by rewrite IH, andb_assoc.
Qed.

Lemma matchFrom_Some (path text : string) (groups : Groups) :
  matchFrom path text = Some groups →
  String.append path text = render groups
  ∧ (noLineTerminator path = true → noLineTerminator (g_path groups) = true)
  ∧ allDigits (g_line groups) = true ∧ nonEmpty (g_line groups) = true
  ∧ allDigits (g_column groups) = true ∧ nonEmpty (g_column groups) = true
  ∧ allDigits (g_code groups) = true ∧ nonEmpty (g_code groups) = true
  ∧ noLineTerminator (g_message groups) = true.
Proof.
  revert path. induction text as [|c text IH]; intros path.
  - cbn [matchFrom].
    destruct (matchAfterPath "") as [[[[l co] k] m]|] eqn:Hm; [|done].
    intros [= <-]. apply matchAfterPath_Some in Hm as (Heq & ?).
    unfold render. simpl. by rewrite Heq.
  - cbn [matchFrom].
    destruct (matchAfterPath (String c text)) as [[[[l co] k] m]|] eqn:Hm.
    + intros [= <-]. apply matchAfterPath_Some in Hm as (Heq & ?).
      unfold render. simpl. by rewrite Heq.
    + destruct (JS.isLineTerminator c) eqn:Hc; [done|].
      intros H. apply IH in H as (Heq & Hpath & Hrest).
      split; [|split; [|done]].
      * rewrite <-Heq, append_assoc. by rewrite append_cons.
      * intros Hp. apply Hpath. rewrite noLineTerminator_app, Hp. simpl.
        by rewrite Hc.
Qed.

(** Whatever [diagnosticRE] matches is a header line: the text is the
    captured path, line, column, code and message put back together in the
    header's format, the three numbers are non-empty runs of decimal
    digits, and neither path nor message holds a line terminator. *)
Theorem diagnosticRE_sound (text : string) (groups : Groups) :
  diagnosticRE text = Some groups →
  text = render groups
  ∧ noLineTerminator (g_path groups) = true
  ∧ allDigits (g_line groups) = true ∧ nonEmpty (g_line groups) = true
  ∧ allDigits (g_column groups) = true ∧ nonEmpty (g_column groups) = true
  ∧ allDigits (g_code groups) = true ∧ nonEmpty (g_code groups) = true
  ∧ noLineTerminator (g_message groups) = true.
Proof.
  intros H. apply matchFrom_Some in H as (Heq & Hpath & Hrest).
  split; [done|]. split; [by apply Hpath | done].
Qed.

Lemma matchAfterPath_render (line column code message : string) :
  allDigits line = true → nonEmpty line = true →
  allDigits column = true → nonEmpty column = true →
  allDigits code = true → nonEmpty code = true →
  noLineTerminator message = true →
  matchAfterPath
    (String.append ":" (String.append line (String.append ":"
       (String.append column (String.append " - error TS"
          (String.append code (String.append ": " message)))))))
  = Some (line, column, code, message).
Proof.
  intros Hl Hl' Hc Hc' Hk Hk' Hm. unfold matchAfterPath.
  rewrite literally_append, digits_append by done. rewrite Hl'. cbn [negb].
  rewrite literally_append, digits_append by done. rewrite Hc'. cbn [negb].
  rewrite literally_append, digits_append by done. rewrite Hk'. cbn [negb].
  by rewrite literally_append, Hm.
Qed.

Lemma digits_none (s : string) :
  startsWithDigit s = false → digits s = (EmptyString, s).
Proof. destruct s as [|c s]; [done|]. simpl. by intros ->. Qed.

Lemma matchAfterPath_inside (c : ascii) (rest : string) :
  negb (Ascii.eqb c ":" && startsWithDigit rest) = true →
  matchAfterPath (String c rest) = None.
Proof.
  intros H. unfold matchAfterPath. cbn [literally].
  destruct (Ascii.eqb_spec ":" c) as [<-|Hc]; [|done].
  rewrite Ascii.eqb_refl in H. cbn [andb] in H.
  apply negb_true_iff in H. by rewrite digits_none.
Qed.

Lemma matchFrom_render (acc path tail : string) (result : Groups) :
  noColonDigit path = true → noLineTerminator path = true →
  startsWithDigit tail = false →
  matchFrom (String.append acc path) tail = Some result →
  matchFrom acc (String.append path tail) = Some result.
Proof.
  revert acc. induction path as [|c path IH]; intros acc Hcd Hlt Htail Hres.
  - by rewrite append_nil_r in Hres.
  - rewrite append_cons. cbn [matchFrom].
    simpl in Hcd, Hlt. apply andb_prop in Hcd as [Hc Hcd].
    apply andb_prop in Hlt as [Hl Hlt].
    rewrite matchAfterPath_inside.
    + apply negb_true_iff in Hl. rewrite Hl. apply IH; try done.
      by rewrite append_assoc.
    + destruct path as [|d path]; [|done]. simpl in *.
      destruct tail; [done|]. simpl in *. by rewrite Htail, andb_false_r.
Qed.

Lemma matchFrom_hit (path text line column code message : string) :
  matchAfterPath text = Some (line, column, code, message) →
  matchFrom path text
  = Some {| g_path := path; g_line := line; g_column := column;
            g_code := code; g_message := message |}.
Proof. intros H. destruct text; cbn [matchFrom]; by rewrite H. Qed.

(** The pattern reads back any header whose parts are well formed: for a
    path without line terminator in which no colon is followed by a digit,
    non-empty runs of digits for line, column and code, and a message
    without line terminator, [diagnosticRE] matches the rendered header and
    captures exactly these five parts. *)
Theorem diagnosticRE_render (groups : Groups) :
  noColonDigit (g_path groups) = true →
  noLineTerminator (g_path groups) = true →
  allDigits (g_line groups) = true → nonEmpty (g_line groups) = true →
  allDigits (g_column groups) = true → nonEmpty (g_column groups) = true →
  allDigits (g_code groups) = true → nonEmpty (g_code groups) = true →
  noLineTerminator (g_message groups) = true →
  diagnosticRE (render groups) = Some groups.
Proof.
  intros Hcd Hlt Hl Hl' Hc Hc' Hk Hk' Hm. unfold diagnosticRE, render.
  apply matchFrom_render; [done | done | done |].
  destruct groups as [p l c k m].
  cbn [g_path g_line g_column g_code g_message] in *.
  change (String.append "" p) with p.
  apply matchFrom_hit. by apply matchAfterPath_render.
Qed.

(** ** Reports that start with a header *)

Lemma shape_Header (cursor : Z) (text : string) :
  isHeader text = true ↔ ∃ groups, shape cursor text = Header groups.
Proof.
  unfold isHeader, shape. destruct (diagnosticRE text) as [g|].
  - split; [by exists g | done].
  - split; [done|]. intros [g Hg].
    destruct (_ && _); [done|]. by destruct (_ && _).
Qed.

Lemma parseLine_count (resolve : string -> string) (st st' : Parser)
    (text : string) :
  parseLine resolve st text = JS.Ok st' →
  List.length (diagnostics st')
  = (List.length (diagnostics st) + if isHeader text then 1 else 0)%nat.
Proof.
  unfold parseLine.
  destruct (shape (cursor st) text) as [g| | |] eqn:Hshape.
  - intros [= <-]. simpl. rewrite length_app. simpl.
    by rewrite (proj2 (shape_Header (cursor st) text)) by by exists g.
  - intros [= <-]. simpl.
    destruct (isHeader text) eqn:Hh; [|lia].
    apply (shape_Header (cursor st)) in Hh as [g Hg]. congruence.
  - destruct (last (diagnostics st)); [|done]. intros [= <-]. simpl.
    rewrite length_alter.
    destruct (isHeader text) eqn:Hh; [|lia].
    apply (shape_Header (cursor st)) in Hh as [g Hg]. congruence.
  - intros [= <-]. simpl.
    destruct (isHeader text) eqn:Hh; [|lia].
    apply (shape_Header (cursor st)) in Hh as [g Hg]. congruence.
Qed.

Lemma parseLines_count (resolve : string -> string) (lines : list string)
    (st st' : Parser) :
  parseLines resolve st lines = JS.Ok st' →
  List.length (diagnostics st')
  = (List.length (diagnostics st)
     + List.length (filter (fun text => isHeader text = true) lines))%nat.
Proof.
  revert st. induction lines as [|text rest IH]; intros st; simpl.
  - intros [= <-]. lia.
  - destruct (parseLine resolve st text) as [st1|] eqn:Hstep; [|done].
    intros H. apply IH in H. apply parseLine_count in Hstep.
    rewrite filter_cons. destruct (isHeader text).
    + rewrite decide_True by done. simpl. lia.
    + rewrite decide_False by done. lia.
Qed.

Lemma parseLines_nonempty (resolve : string -> string) (lines : list string)
    (st : Parser) :
  diagnostics st ≠ [] →
  ∃ st', parseLines resolve st lines = JS.Ok st'.
Proof.
  revert st. induction lines as [|text rest IH]; intros st Hne; simpl.
  - by exists st.
  - destruct (parseLine_nonempty resolve st text Hne) as (st1 & -> & Hlen & _).
    apply IH. intros Hnil. rewrite Hnil in Hlen.
    destruct (diagnostics st); [done | simpl in Hlen; lia].
Qed.

(** ** Grouping by path *)

Lemma addToGroup_keys (groups : list (string * list Diagnostic))
    (d : Diagnostic) :
  map fst (addToGroup groups d)
  = if decide (path d ∈ map fst groups) then map fst groups
    else map fst groups ++ [path d].
Proof.
  induction groups as [|[key group] groups IH].
  - destruct (decide (path d ∈ map fst [])) as [H|H]; [|done].
    by apply elem_of_nil in H.
  - cbn [addToGroup].
    destruct (String.eqb_spec key (path d)) as [->|Hne]; cbn [map fst].
    + destruct (decide (path d ∈ path d :: map fst groups)) as [H|H]; [done|].
      exfalso. apply H. left.
    + rewrite IH. destruct (decide (path d ∈ map fst groups)) as [Hin|Hin].
      * destruct (decide (path d ∈ key :: map fst groups)) as [H|H]; [done|].
        exfalso. apply H. by right.
      * destruct (decide (path d ∈ key :: map fst groups)) as [H|H]; [|done].
        apply elem_of_cons in H as [?|?]; [congruence | done].
Qed.

Lemma addToGroup_elem (groups : list (string * list Diagnostic))
    (d : Diagnostic) (key : string) (group : list Diagnostic) :
  NoDup (map fst groups) →
  (key, group) ∈ addToGroup groups d →
  (key ≠ path d ∧ (key, group) ∈ groups)
  ∨ (key = path d
     ∧ ∃ group0, (key, group0) ∈ groups ∧ group = group0 ++ [d])
  ∨ (key = path d ∧ (key ∉ map fst groups) ∧ group = [d]).
Proof.
  induction groups as [|[key0 group0] groups IH]; simpl; intros Hnd.
  - intros [= -> ->]%list_elem_of_singleton. right. right.
    split; [done|]. split; [by intros ?%elem_of_nil | done].
  - apply NoDup_cons in Hnd as [Hkey0 Hnd].
    destruct (String.eqb_spec key0 (path d)) as [->|Hne].
    + intros [[= -> ->] | Hin]%elem_of_cons.
      * right. left. split; [done|]. exists group0. split; [left | done].
      * left. split; [|by right]. intros ->. apply Hkey0.
        apply list_elem_of_fmap. by exists (path d, group).
    + intros [[= -> ->] | Hin]%elem_of_cons.
      * left. split; [done | left].
      * destruct (IH Hnd Hin)
          as [[Hk Hg] | [(Hk & g0 & Hg0 & Hg) | (Hk & Hfresh & Hg)]].
        -- left. split; [done | by right].
        -- right. left. split; [done|]. exists g0. split; [by right | done].
        -- right. right. split; [done|]. split; [|done].
           intros [?|?]%elem_of_cons; [congruence | done].
Qed.

Lemma addToGroup_NoDup (groups : list (string * list Diagnostic))
    (d : Diagnostic) :
  NoDup (map fst groups) → NoDup (map fst (addToGroup groups d)).
Proof.
  intros Hnd. rewrite addToGroup_keys. case_decide; [done|].
  apply NoDup_app. split; [done|]. split; [|apply NoDup_singleton].
  intros key Hkey [= ->]%list_elem_of_singleton. done.
Qed.

Lemma grouping (ds : list Diagnostic) :
  NoDup (map fst (fold_left addToGroup ds []))
  ∧ (∀ key group, (key, group) ∈ fold_left addToGroup ds [] →
       group ≠ [] ∧ group = filter (fun d => path d = key) ds)
  ∧ (∀ d, d ∈ ds → path d ∈ map fst (fold_left addToGroup ds [])).
Proof.
  induction ds as [|d ds IH] using rev_ind; simpl.
  - split; [constructor|]. split; [by intros ? ? ?%elem_of_nil|].
    by intros ? ?%elem_of_nil.
  - rewrite fold_left_app. simpl.
    set (groups := fold_left addToGroup ds []) in *.
    destruct IH as (Hnd & Hgroups & Hcover).
    split; [by apply addToGroup_NoDup|]. split.
    + intros key group Hin. rewrite filter_app, filter_cons, filter_nil.
      destruct (addToGroup_elem groups d key group Hnd Hin)
        as [[Hk Hg] | [(-> & g0 & Hg0 & ->) | (-> & Hfresh & ->)]].
      * destruct (Hgroups _ _ Hg) as [Hne ->]. split; [done|].
        rewrite decide_False by done. by rewrite app_nil_r.
      * destruct (Hgroups _ _ Hg0) as [Hne ->].
        split; [by destruct (filter _ ds)|]. by rewrite decide_True.
      * split; [done|]. rewrite decide_True by done.
        assert (filter (fun d0 => path d0 = path d) ds = []) as ->; [|done].
        destruct (filter (fun d0 => path d0 = path d) ds) as [|e rest] eqn:Hf;
          [done|].
        exfalso. apply Hfresh.
        assert (e ∈ filter (fun d0 => path d0 = path d) ds) as He
          by (rewrite Hf; left).
        apply list_elem_of_filter in He as [<- He]. by apply Hcover.
    + intros e He. rewrite addToGroup_keys.
      apply elem_of_app in He as [He | ->%list_elem_of_singleton].
      * case_decide; [by apply Hcover|]. apply elem_of_app. left.
        by apply Hcover.
      * case_decide; [done|]. apply elem_of_app. right. left.
Qed.

(** [parseDiagnostics] groups what it parsed by path without losing or
    mixing anything: no path keys two groups, every group is non-empty and
    holds, in encounter order, exactly the parsed diagnostics of its path,
    and every parsed diagnostic's path keys a group. *)
Theorem groups_partition (resolve : string -> string) (stdout : string)
    (groups : list (string * list Diagnostic)) :
  parseDiagnostics resolve stdout = JS.Ok groups →
  ∃ st,
    parseLines resolve initial (JS.split "010" (JS.trim stdout)) = JS.Ok st
    ∧ NoDup (map fst groups)
    ∧ (∀ key group, (key, group) ∈ groups →
         group ≠ []
         ∧ group = filter (fun d => path d = key) (diagnostics st))
    ∧ (∀ d, d ∈ diagnostics st → path d ∈ map fst groups).
Proof.
  unfold parseDiagnostics.
  destruct (parseLines resolve initial _) as [st|] eqn:Hrun; [|done].
  intros [= <-]. exists st. split; [done|]. apply grouping.
Qed.

Lemma grouping_length (ds : list Diagnostic) :
  List.length (concat (map snd (fold_left addToGroup ds []))) = List.length ds.
Proof.
  assert (∀ groups d,
            List.length (concat (map snd (addToGroup groups d)))
            = S (List.length (concat (map snd groups)))) as Hstep.
  { intros groups d. induction groups as [|[key group] groups IH]; [done|].
    simpl. destruct (String.eqb key (path d)); simpl.
    - rewrite !length_app. simpl. lia.
    - rewrite !length_app, IH. lia. }
  induction ds as [|d ds IH] using rev_ind; [done|].
  rewrite fold_left_app. simpl. rewrite Hstep, IH, length_app. simpl. lia.
Qed.

(** A report whose first line, once trimmed and split, is a diagnostic
    header is always parsed to the end: [parseDiagnostics] returns, and its
    groups hold as many diagnostics as the report has header lines. *)
Theorem header_first_never_throws (resolve : string -> string)
    (stdout first : string) (rest : list string) :
  JS.split "010" (JS.trim stdout) = first :: rest →
  isHeader first = true →
  ∃ groups,
    parseDiagnostics resolve stdout = JS.Ok groups
    ∧ List.length (concat (map snd groups))
      = List.length (filter (fun text => isHeader text = true)
                            (first :: rest)).
Proof.
  intros Hlines Hfirst. unfold parseDiagnostics. rewrite Hlines.
  apply (shape_Header (cursor initial)) in Hfirst as [g Hg].
  assert (∃ st1, parseLine resolve initial first = JS.Ok st1
                 ∧ diagnostics st1 ≠ []) as (st1 & Hstep & Hne).
  { unfold parseLine. rewrite Hg. eexists. split; [done|]. simpl. done. }
  destruct (parseLines_nonempty resolve rest st1 Hne) as [st Hrun].
  assert (parseLines resolve initial (first :: rest) = JS.Ok st) as Hall
    by (simpl; by rewrite Hstep).
  rewrite Hall. eexists. split; [done|].
  rewrite grouping_length. by apply parseLines_count in Hall.
Qed.

(** ** What the remap loop leaves alone *)

Lemma remap_identity (sourceFile : SourceFile) (d e : Diagnostic) :
  remap sourceFile d = Some e → identity e = identity d.
Proof.
  unfold remap. destruct (_ || _); [done|].
  destruct (firstOffset _); [|done]. destruct (firstOffset _); [|done].
  by intros [= <-].
Qed.

Lemma remapAll_sublist (sourceFile : SourceFile) (ds : list Diagnostic) :
  map identity (remapAll sourceFile ds) `sublist_of` map identity ds.
Proof.
  induction ds as [|d ds IH]; simpl; [done|].
  destruct (remap sourceFile d) as [e|] eqn:Hd; simpl.
  - rewrite (remap_identity _ _ _ Hd). by apply sublist_skip.
  - by apply sublist_cons.
Qed.

(** The remap loop of [check] only drops diagnostics and moves the ones it
    keeps: path, code and message of the rendered diagnostics of a group
    are, in order, those of a sub-sequence of the parsed ones; unless the
    project knows the file, the diagnostics are rendered as parsed. *)
Theorem checkGroup_conservative (targetToSource : gmap string SourceFile)
    (cacheRoot mutualRoot path : string) (ds : list Diagnostic) :
  map identity
      (snd (checkGroup targetToSource cacheRoot mutualRoot (path, ds)))
  `sublist_of` map identity ds
  ∧ (is_Some (targetToSource !! path)
     ∨ snd (checkGroup targetToSource cacheRoot mutualRoot (path, ds)) = ds).
Proof.
  unfold checkGroup. destruct (targetToSource !! path) as [sf|]; simpl.
  - split; [apply remapAll_sublist | by left].
  - split; [done | by right].
Qed.

(** ** parseSFC *)

Lemma attrValue_truthy (value : option SFC.TextNode) :
  SFC.truthy (Some (SFC.attrValue value)) = true.
Proof.
  unfold SFC.attrValue. destruct value as [text|]; [|done].
  by destruct (SFC.content text) eqn:Hc.
Qed.

Lemma addProp_type (valueOffset : SFC.TextNode → Z)
    (nodeLoc : SFC.SourceLocation) (block : SFC.Block) (prop : SFC.Prop_) :
  SFC.type (SFC.addProp valueOffset nodeLoc block prop) = SFC.type block.
Proof.
  destruct prop as [name value | name]; [|done]. simpl.
  repeat (match goal with
          | |- context [if ?b then _ else _] => destruct b
          end; try done).
Qed.

Lemma addProp_setup (valueOffset : SFC.TextNode → Z)
    (nodeLoc : SFC.SourceLocation) (block : SFC.Block) (prop : SFC.Prop_) :
  (SFC.setup block = None ∨ SFC.truthy (SFC.setup block) = true) →
  (SFC.setup (SFC.addProp valueOffset nodeLoc block prop) = None
   ∨ SFC.truthy (SFC.setup (SFC.addProp valueOffset nodeLoc block prop))
     = true)
  ∧ SFC.truthy (SFC.setup (SFC.addProp valueOffset nodeLoc block prop))
    = SFC.truthy (SFC.setup block)
      || (String.eqb (SFC.type block) "script" && SFC.marksSetup prop).
Proof.
  intros Hsetup. destruct prop as [name value | name].
  2:{ simpl. split; [done|]. by rewrite andb_false_r, orb_false_r. }
  unfold SFC.addProp, SFC.marksSetup.
  pose proof (attrValue_truthy value) as Hv.
  generalize dependent (SFC.attrValue value). intros v Hv.
  cbn [SFC.type SFC.b_content SFC.b_loc SFC.attrs SFC.lang SFC.__src
       SFC.setup SFC.scoped SFC.__generic SFC.__module].
  destruct (String.eqb_spec name "lang") as [->|Hlang].
  { simpl. split; [done|]. by rewrite andb_false_r, orb_false_r. }
  destruct (String.eqb_spec name "src") as [->|Hsrc].
  { simpl. split; [done|]. by rewrite andb_false_r, orb_false_r. }
  destruct (String.eqb (SFC.type block) "script").
  - destruct (String.eqb_spec name "setup") as [->|Hs].
    { cbn [SFC.setup]. rewrite Hv. split; [by right|]. by rewrite orb_true_r. }
    destruct (String.eqb_spec name "vapor") as [->|Hvapor].
    { cbn [SFC.setup orb andb].
      destruct (SFC.setup block) as [w|] eqn:Hb.
      - destruct Hsetup as [|Ht]; [done|]. rewrite Ht.
        split; [by right | done].
      - rewrite Hv. split; [by right | done]. }
    destruct (String.eqb name "generic"); cbn [SFC.setup orb andb];
      (split; [done|]; by rewrite orb_false_r).
  - cbn [andb]. rewrite orb_false_r.
    destruct (String.eqb (SFC.type block) "style");
      [destruct (String.eqb name "scoped");
         [|destruct (String.eqb name "module")]|];
      cbn [SFC.setup]; done.
Qed.

Lemma fold_addProp (valueOffset : SFC.TextNode → Z)
    (nodeLoc : SFC.SourceLocation) (props : list SFC.Prop_)
    (block : SFC.Block) :
  (SFC.setup block = None ∨ SFC.truthy (SFC.setup block) = true) →
  SFC.type (fold_left (SFC.addProp valueOffset nodeLoc) props block)
  = SFC.type block
  ∧ SFC.truthy
      (SFC.setup (fold_left (SFC.addProp valueOffset nodeLoc) props block))
    = SFC.truthy (SFC.setup block)
      || (String.eqb (SFC.type block) "script"
          && existsb SFC.marksSetup props).
Proof.
  revert block. induction props as [|prop props IH]; intros block Hsetup.
  - simpl. by rewrite andb_false_r, orb_false_r.
  - simpl.
    destruct (addProp_setup valueOffset nodeLoc block prop Hsetup)
      as [Hnext Heq].
    destruct (IH _ Hnext) as [Htype Htruthy].
    rewrite Htype, Htruthy, Heq, !addProp_type. split; [done|].
    destruct (SFC.truthy (SFC.setup block)),
      (String.eqb (SFC.type block) "script"), (SFC.marksSetup prop); done.
Qed.

Lemma createBlock_fold (valueOffset : SFC.TextNode → Z) (tag : string)
    (nodeLoc : SFC.SourceLocation) (props : list SFC.Prop_)
    (children : list SFC.Node) (source : string) :
  SFC.type (SFC.createBlock valueOffset tag nodeLoc props children source)
  = tag
  ∧ SFC.truthy
      (SFC.setup
         (SFC.createBlock valueOffset tag nodeLoc props children source))
    = String.eqb tag "script" && existsb SFC.marksSetup props.
Proof.
  unfold SFC.createBlock.
  destruct children as [|first rest]; [|destruct (last (first :: rest))];
    cbv beta iota zeta;
    match goal with
    | |- context [fold_left _ props ?b] =>
        destruct (fold_addProp valueOffset nodeLoc props b) as [Ht Hs];
          [by left|];
        by rewrite Ht, Hs
    end.
Qed.

(** The block that [createBlock] makes of an element keeps the element's
    tag as its type, and its [setup] is truthy exactly when the element is
    a script and one of its attributes (directives do not count) is named
    "setup" or "vapor". *)
Theorem createBlock_setup (valueOffset : SFC.TextNode → Z) (tag : string)
    (nodeLoc : SFC.SourceLocation) (props : list SFC.Prop_)
    (children : list SFC.Node) (source : string) :
  SFC.type (SFC.createBlock valueOffset tag nodeLoc props children source)
  = tag
  ∧ SFC.truthy
      (SFC.setup
         (SFC.createBlock valueOffset tag nodeLoc props children source))
    = String.eqb tag "script" && existsb SFC.marksSetup props.
Proof. apply createBlock_fold. Qed.

Lemma parseSFC_snoc (valueOffset : SFC.TextNode → Z) (source : string)
    (children : list SFC.Node) (node : SFC.Node) :
  SFC.parseSFC valueOffset source (children ++ [node])
  = SFC.visit valueOffset source
      (SFC.parseSFC valueOffset source children) node.
Proof. unfold SFC.parseSFC. by rewrite fold_left_app. Qed.

Lemma filter_snoc {A : Type} (P : A → Prop) `{∀ x, Decision (P x)}
    (l : list A) (x : A) :
  filter P (l ++ [x])
  = if decide (P x) then filter P l ++ [x] else filter P l.
Proof.
  rewrite filter_app, filter_cons, filter_nil.
  destruct (decide (P x)); [done | by rewrite app_nil_r].
Qed.

(** [parseSFC] sorts the top-level nodes without losing or reordering
    any: the comments are the contents of the comment nodes, the styles are
    the blocks of the style elements and the custom blocks those of the
    elements that are neither template, script nor style, all in document
    order; template, script and scriptSetup are each the block of the last
    element of their kind, a script counting as setup when its block's
    [setup] is truthy. *)
Theorem parseSFC_sorts (valueOffset : SFC.TextNode → Z) (source : string)
    (children : list SFC.Node) :
  SFC.comments (SFC.parseSFC valueOffset source children)
  = omap SFC.commentOf children
  ∧ SFC.styles (SFC.parseSFC valueOffset source children)
    = filter (fun b => SFC.type b = "style")
             (omap (SFC.blockOf valueOffset source) children)
  ∧ SFC.customBlocks (SFC.parseSFC valueOffset source children)
    = filter (fun b => SFC.type b ≠ "template" ∧ SFC.type b ≠ "script"
                       ∧ SFC.type b ≠ "style")
             (omap (SFC.blockOf valueOffset source) children)
  ∧ SFC.template (SFC.parseSFC valueOffset source children)
    = last (filter (fun b => SFC.type b = "template")
                   (omap (SFC.blockOf valueOffset source) children))
  ∧ SFC.scriptSetup (SFC.parseSFC valueOffset source children)
    = last (filter (fun b => SFC.type b = "script"
                             ∧ SFC.truthy (SFC.setup b) = true)
                   (omap (SFC.blockOf valueOffset source) children))
  ∧ SFC.script (SFC.parseSFC valueOffset source children)
    = last (filter (fun b => SFC.type b = "script"
                             ∧ SFC.truthy (SFC.setup b) = false)
                   (omap (SFC.blockOf valueOffset source) children)).
Proof.
  induction children as [|node children IH] using rev_ind; [done|].
  rewrite parseSFC_snoc, !omap_app.
  destruct IH as (Hc & Hst & Hcu & Ht & Hss & Hs).
  destruct node as [content loc | tag loc props kids | loc].
  - cbn [SFC.visit SFC.commentOf SFC.blockOf omap list_omap].
    rewrite !app_nil_r. cbn [SFC.comments SFC.template SFC.script
      SFC.scriptSetup SFC.styles SFC.customBlocks]. by rewrite Hc.
  - cbn [SFC.visit SFC.commentOf SFC.blockOf omap list_omap].
    rewrite !filter_snoc, app_nil_r.
    destruct (createBlock_fold valueOffset tag loc props kids source)
      as [Htype _].
    set (b := SFC.createBlock valueOffset tag loc props kids source) in *.
    destruct (String.eqb_spec tag "template") as [Htag|Htemplate];
      [|destruct (String.eqb_spec tag "script") as [Htag|Hscript];
         [destruct (SFC.truthy (SFC.setup b)) eqn:Htruthy
         |destruct (String.eqb_spec tag "style") as [Htag|Hstyle]]];
      cbn [SFC.comments SFC.template SFC.script SFC.scriptSetup SFC.styles
           SFC.customBlocks];
      repeat match goal with
             | |- context [decide ?P] =>
                 first [ rewrite (decide_True (P := P))
                           by (rewrite ?Htype, ?Htag; intuition congruence)
                       | rewrite (decide_False (P := P))
                           by (rewrite ?Htype, ?Htag; intuition congruence) ]
             end;
      rewrite ?last_snoc; repeat split; congruence.
  - cbn [SFC.visit SFC.commentOf SFC.blockOf omap list_omap].
    by rewrite !app_nil_r.
Qed.

(** * Further instances *)

(** Offset 4 of the three lines lies on the second line, which starts
    at 3. *)
Lemma line_is_greatest_witness :
  ∃ x,
    JS.at_ (lineOffsets Sample.threeLines)
           (line (createLineAndColumnGetter Sample.threeLines 4) - 1)
    = Some x
    ∧ column (createLineAndColumnGetter Sample.threeLines 4) = 4 - x + 1
    ∧ ∀ (j : nat) y, lineOffsets Sample.threeLines !! j = Some y →
        (y <= 4
         ↔ Z.of_nat j + 1
           <= line (createLineAndColumnGetter Sample.threeLines 4)).
Proof. apply (line_is_greatest Sample.threeLines 4). lia. Defined.

(** Line 2, column 2 of the three lines is offset 4 and is read back. *)
Lemma offset_round_trip_witness :
  JS.at_ (lineOffsets Sample.threeLines) (2 - 1) = Some 3
  ∧ createOffsetGetter Sample.threeLines 2 2 = JS.Num 4
  ∧ createLineAndColumnGetter Sample.threeLines 4
    = {| line := 2; column := 2 |}.
Proof.
  split; [reflexivity|].
  apply (offset_round_trip Sample.threeLines 2 2 3);
    [reflexivity | lia |].
  intros y Hy. vm_compute in Hy. injection Hy as <-. lia.
Defined.

(** Two boundaries that were opened and a fragment without token. *)
Lemma distinct_tokens_unchanged_witness :
  omap (fun code => Boundary.dataOf code ≫= __combineToken)
       Fixture.distinctTokens
  = [1%nat; 2%nat]
  ∧ createMappings Fixture.distinctTokens
    = originalMappings 0 Fixture.distinctTokens.
Proof.
  split; [reflexivity|].
  apply (distinct_tokens_unchanged Fixture.distinctTokens).
  apply (bool_decide_unpack (NoDup [1%nat; 2%nat])). vm_compute. exact I.
Defined.

(** The wrapped boundary of [Sample.wrapped]. *)
Lemma wrapped_boundary_entry_witness :
  occurrences 1%nat (createMappings Sample.wrapped)
  = [{| sourceOffsets := [4; 9];
        generatedOffsets := [10; 13];
        lengths := [0; 0];
        data := Boundary.withToken codeFeatures.verification 1%nat |}].
Proof.
  apply (wrapped_boundary_entry "template" 4 9 codeFeatures.verification
           [Text "a.b"] 1%nat [Text "const x = "]
           [Mapped ".c" (Some "template") 9 codeFeatures.none; Text ";"]);
    reflexivity.
Defined.

(** An import of a component whose virtual file is TypeScript. *)
Lemma patchImport_in_place_witness :
  patchImport Fixture.importing 22 "ts" = "import A from './A.vue_.ts';"
  ∧ JS.length (patchImport Fixture.importing 22 "ts")
    = JS.length Fixture.importing
  ∧ slice (patchImport Fixture.importing 22 "ts") 0 22
    = slice Fixture.importing 0 22
  ∧ slice (patchImport Fixture.importing 22 "ts") 22 (22 + 4)
    = padStart4 (String.append "." "ts")
  ∧ sliceFrom (patchImport Fixture.importing 22 "ts") (22 + 4)
    = sliceFrom Fixture.importing (22 + 4).
Proof.
  split; [reflexivity|].
  apply (patchImport_in_place Fixture.importing 22 "ts");
    [lia | vm_compute; discriminate | simpl; lia].
Defined.

(** The header of the sample block is matched and is of the format. *)
Lemma diagnosticRE_sound_witness :
  diagnosticRE Fixture.header = Some Fixture.headerGroups
  ∧ Fixture.header = render Fixture.headerGroups.
Proof.
  split; [reflexivity|].
  apply (diagnosticRE_sound Fixture.header Fixture.headerGroups).
  reflexivity.
Defined.

(** The parts of that header are read back from its rendering. *)
Lemma diagnosticRE_render_witness :
  diagnosticRE (render Fixture.headerGroups) = Some Fixture.headerGroups.
Proof. apply (diagnosticRE_render Fixture.headerGroups); reflexivity. Defined.

(** Three diagnostics of two files make two groups. *)
Lemma groups_partition_witness :
  parseDiagnostics (fun path => path) Fixture.twoFiles
  = JS.Ok Fixture.twoGroups
  ∧ ∃ st,
      parseLines (fun path => path) initial
        (JS.split "010" (JS.trim Fixture.twoFiles))
      = JS.Ok st
      ∧ NoDup (map fst Fixture.twoGroups)
      ∧ (∀ key group, (key, group) ∈ Fixture.twoGroups →
           group ≠ []
           ∧ group = filter (fun d => path d = key) (diagnostics st))
      ∧ (∀ d, d ∈ diagnostics st → path d ∈ map fst Fixture.twoGroups).
Proof.
  split; [reflexivity|].
  apply (groups_partition (fun path => path) Fixture.twoFiles).
  reflexivity.
Defined.

(** The truncated block starts with its header. *)
Lemma header_first_never_throws_witness :
  ∃ groups,
    parseDiagnostics (fun path => path) Sample.truncated = JS.Ok groups
    ∧ List.length (concat (map snd groups))
      = List.length
          (filter (fun text => isHeader text = true)
                  [Fixture.header; ""; "3 const x = a.b.c;"]).
Proof.
  apply (header_first_never_throws (fun path => path) Sample.truncated
           Fixture.header [""; "3 const x = a.b.c;"]);
    reflexivity.
Defined.
